(** * Invoice-AI: the job queue and the invoice extraction pipeline

    A shallow embedding of [backend/fastapi/job_queue.py] (module
    [JobQueueModel]) and of [backend/fastapi/invoice_processor.py] (module
    [InvoiceProcessorModel]), with the properties of the scheduler and
    of the staged extraction pipeline stated over them.

    Conventions.  Python [int] is [Z]; Python [str] is [string], a
    character being a code point below 256; [Optional[T]] is
    [option T]; a [dict] is an association list in insertion order with
    unique keys.  Whatever the code obtains from outside the process (the
    clock, [uuid4], the collaborators behind a handler, the OCR engine,
    the generative model) is an explicit argument of the function that
    consumes it. *)

From Stdlib Require Import ZArith List String Ascii Bool Lia SpecFloat.
From Stdlib.Strings Require Import Byte.
Import ListNotations.

Set Warnings "-register-all".

Local Open Scope string_scope.
Local Open Scope list_scope.
Local Open Scope Z_scope.

(** ** Python values shared by both modules *)

(** The [Any] of a [Dict[str, Any]]: what JSON and the two files put in
    one.  A [float] is its IEEE 754 binary64 value. *)
Inductive value : Type :=
| VNone
| VBool (b : bool)
| VInt (z : Z)
| VFloat (f : spec_float)
| VStr (s : string)
| VList (l : list value)
| VDict (d : list (string * value)).

Definition dict : Type := list (string * value).

(** The entry of [d] under [k], if there is one. *)
Fixpoint dict_lookup (d : dict) (k : string) : option value :=
  match d with
  | [] => None
  | (k', v) :: r => if String.eqb k' k then Some v else dict_lookup r k
  end.

(** [d.get(k, default)] and [d.get(k)], whose default is Python [None]. *)
Definition dict_get_default (d : dict) (k : string) (default : value) : value :=
  match dict_lookup d k with
  | Some v => v
  | None => default
  end.

Definition dict_get (d : dict) (k : string) : value := dict_get_default d k VNone.

(** [d[k] = v]: an existing key keeps its position, a new key goes last. *)
Fixpoint dict_set (d : dict) (k : string) (v : value) : dict :=
  match d with
  | [] => [(k, v)]
  | (k', v') :: r =>
    if String.eqb k' k then (k', v) :: r else (k', v') :: dict_set r k v
  end.

(** Truthiness of an [Optional[str]] and of an [Optional[dict]]: [None]
    and the empty value are false. *)
Definition truthy_str (s : option string) : bool :=
  match s with
  | Some (String _ _) => true
  | _ => false
  end.

Definition truthy_dict (d : option dict) : bool :=
  match d with
  | Some (_ :: _) => true
  | _ => false
  end.

(** ** job_queue.py *)

Module JobQueueModel.

(** [class JobStatus(str, Enum)] *)
Inductive JobStatus : Type :=
| PENDING | PROCESSING | COMPLETED | FAILED | RETRYING | CANCELLED.

(** [class JobPriority(str, Enum)] *)
Inductive JobPriority : Type :=
| LOW | NORMAL | HIGH | CRITICAL.

Definition status_eqb (a b : JobStatus) : bool :=
  match a, b with
  | PENDING, PENDING | PROCESSING, PROCESSING | COMPLETED, COMPLETED
  | FAILED, FAILED | RETRYING, RETRYING | CANCELLED, CANCELLED => true
  | _, _ => false
  end.

(** [@dataclass class Job].  [created_at] is filled by [__post_init__]
    from the clock, so it is never [None] once the object exists. *)
Record Job : Type := mkJob {
  id : string;
  type : string;
  payload : dict;
  status : JobStatus;
  priority : JobPriority;
  attempts : Z;
  max_retries : Z;
  error_message : option string;
  result : option dict;
  created_at : string;
  started_at : option string;
  completed_at : option string
}.

(** Attribute assignments [job.f = v]. *)
Definition set_status (j : Job) (s : JobStatus) : Job :=
  mkJob (id j) (type j) (payload j) s (priority j) (attempts j) (max_retries j)
        (error_message j) (result j) (created_at j) (started_at j) (completed_at j).

Definition set_attempts (j : Job) (n : Z) : Job :=
  mkJob (id j) (type j) (payload j) (status j) (priority j) n (max_retries j)
        (error_message j) (result j) (created_at j) (started_at j) (completed_at j).

Definition set_error_message (j : Job) (e : option string) : Job :=
  mkJob (id j) (type j) (payload j) (status j) (priority j) (attempts j) (max_retries j)
        e (result j) (created_at j) (started_at j) (completed_at j).

Definition set_result (j : Job) (r : option dict) : Job :=
  mkJob (id j) (type j) (payload j) (status j) (priority j) (attempts j) (max_retries j)
        (error_message j) r (created_at j) (started_at j) (completed_at j).

Definition set_started_at (j : Job) (t : option string) : Job :=
  mkJob (id j) (type j) (payload j) (status j) (priority j) (attempts j) (max_retries j)
        (error_message j) (result j) (created_at j) t (completed_at j).

Definition set_completed_at (j : Job) (t : option string) : Job :=
  mkJob (id j) (type j) (payload j) (status j) (priority j) (attempts j) (max_retries j)
        (error_message j) (result j) (created_at j) (started_at j) t.

(** A request sent to the [job_queue] table of the database client. *)
Inductive DbRequest : Type :=
| DbInsert (job_id job_type : string) (payload : dict) (status : JobStatus)
           (priority : JobPriority) (max_retries : Z) (created_at : string)
| DbUpdate (job_id : string) (status : JobStatus) (error_message : option string)
           (result : option dict) (started_at completed_at : option string).

(** [class JobQueue].  [jobs] is the dict [self.jobs]: its key is always
    the [id] of the job stored under it ([add_job] is the only writer), so
    the dict is the list of its values in insertion order, and a [Job]
    object is referred to by its [id].  [supabase] is [None] or the client,
    seen as the requests issued to it so far, latest first; every such
    request sits in a [try] whose handler only logs, so a request that
    raises leaves the queue as one that succeeds does. *)
Record JobQueue : Type := mkQueue {
  jobs : list Job;
  supabase : option (list DbRequest);
  running : bool
}.

(** [JobQueue.__init__] *)
Definition init (supabase_client : option (list DbRequest)) : JobQueue :=
  mkQueue [] supabase_client false.

Definition with_jobs (q : JobQueue) (js : list Job) : JobQueue :=
  mkQueue js (supabase q) (running q).

Definition db_request (q : JobQueue) (r : DbRequest) : JobQueue :=
  match supabase q with
  | Some log => mkQueue (jobs q) (Some (r :: log)) (running q)
  | None => q
  end.

(** [self.jobs.get(job_id)] *)
Definition jobs_get (js : list Job) (job_id : string) : option Job :=
  find (fun j => String.eqb (id j) job_id) js.

(** [self.jobs[job.id] = job]: an existing key keeps its position, a new
    key goes last. *)
Fixpoint jobs_set (js : list Job) (job : Job) : list Job :=
  match js with
  | [] => [job]
  | x :: r => if String.eqb (id x) (id job) then job :: r else x :: jobs_set r job
  end.

(** [add_job].  [job_id] is what [uuid.uuid4()] returned and [now] what
    [datetime.utcnow().isoformat()] returned inside [__post_init__]. *)
Definition add_job (q : JobQueue) (job_id now : string)
    (job_type : string) (payload : dict)
    (priority : JobPriority) (max_retries : Z) : string * JobQueue :=
  let job := mkJob job_id job_type payload PENDING priority 0 max_retries
                   None None now None None in
  let q1 := with_jobs q (jobs_set (jobs q) job) in
  let q2 := db_request q1 (DbInsert job_id job_type payload (status job)
                                    (JobQueueModel.priority job) max_retries (created_at job)) in
  (job_id, q2).

(** [get_job] *)
Definition get_job (q : JobQueue) (job_id : string) : option Job * JobQueue :=
  (jobs_get (jobs q) job_id, q).

(** The attribute assignments [update_job_status] makes on the job it
    found.  [now] is the clock reading used if a timestamp is taken. *)
Definition apply_status (job : Job) (now : string) (st : JobStatus)
    (error_msg : option string) (res : option dict) : Job :=
  let job := set_status job st in
  let job := if truthy_str error_msg then set_error_message job error_msg else job in
  let job := if truthy_dict res then set_result job res else job in
  if status_eqb st PROCESSING && negb (truthy_str (started_at job))
  then set_started_at job (Some now)
  else if status_eqb st COMPLETED || status_eqb st FAILED || status_eqb st CANCELLED
  then set_completed_at job (Some now)
  else job.

(** [update_job_status] *)
Definition update_job_status (q : JobQueue) (now : string) (job_id : string)
    (st : JobStatus) (error_msg : option string) (res : option dict) : JobQueue :=
  match jobs_get (jobs q) job_id with
  | None => q
  | Some job =>
    let job := apply_status job now st error_msg res in
    let q1 := with_jobs q (jobs_set (jobs q) job) in
    db_request q1 (DbUpdate job_id st error_msg
                            (if truthy_dict res then res else None)
                            (started_at job) (completed_at job))
  end.

(** *** Selection *)

(** The [priority_order] table of [get_next_job]. *)
Definition priority_order (p : JobPriority) : Z :=
  match p with
  | CRITICAL => 0
  | HIGH => 1
  | NORMAL => 2
  | LOW => 3
  end.

(** The sort key [(priority_order.get(j.priority, 999), j.created_at)];
    every [JobPriority] is in the table, so the default is never used. *)
Definition sort_key (j : Job) : Z * string :=
  (priority_order (priority j), created_at j).

(** [<] on the key tuples: by the first component, the second deciding
    between equal first components. *)
Definition key_lt (a b : Z * string) : bool :=
  (fst a <? fst b) || ((fst a =? fst b) && String.ltb (snd a) (snd b)).

Definition job_lt (a b : Job) : bool := key_lt (sort_key a) (sort_key b).

(** [sorted(xs, key=...)]: ascending and stable, elements with equal keys
    keep their order. *)
Fixpoint insert_sorted (x : Job) (l : list Job) : list Job :=
  match l with
  | [] => [x]
  | y :: r => if job_lt y x then y :: insert_sorted x r else x :: l
  end.

Fixpoint sorted (l : list Job) : list Job :=
  match l with
  | [] => []
  | x :: r => insert_sorted x (sorted r)
  end.

Definition is_pending (j : Job) : bool := status_eqb (status j) PENDING.

(** [get_next_job] *)
Definition get_next_job (q : JobQueue) : option Job * JobQueue :=
  let pending_jobs := filter is_pending (jobs q) in
  match pending_jobs with
  | [] => (None, q)
  | _ =>
    let sorted_jobs := sorted pending_jobs in
    (match sorted_jobs with j :: _ => Some j | [] => None end, q)
  end.

(** *** Execution *)

(** What a handler call ends in: the dict it returns, or [str(e)] of the
    exception it raises. *)
Inductive outcome : Type :=
| Returned (r : dict)
| Raised (error_msg : string).

(** The collaborators behind the handlers, as one execution attempt meets
    them.  [supabase_admin] is [None] when [main.supabase_admin] is falsy,
    [Some None] when its two requests go through and [Some (Some e)] when
    one of them raises [e].  [email_service] is [None] when
    [create_email_service()] returns nothing, [Some (inl e)] when
    [process_inbox] raises [e] and [Some (inr n)] when it returns [n]
    attachments. *)
Record World : Type := mkWorld {
  supabase_admin : option (option string);
  email_service : option (string + nat)
}.

(** [_process_invoice_job] *)
Definition _process_invoice_job (w : World) (payload : dict) : outcome :=
  let invoice_id := dict_get payload "invoice_id" in
  match supabase_admin w with
  | None => Raised "Supabase admin client not available"
  | Some (Some e) => Raised e
  | Some None => Returned [("invoice_id", invoice_id); ("status", VStr "completed")]
  end.

(** [_process_email_ingestion_job] *)
Definition _process_email_ingestion_job (w : World) (payload : dict) : outcome :=
  match email_service w with
  | None => Raised "Email service not configured"
  | Some (inl e) => Raised e
  | Some (inr n) => Returned [("attachments_processed", VInt (Z.of_nat n))]
  end.

(** [_process_report_job] *)
Definition _process_report_job (payload : dict) : outcome :=
  Returned [("report_generated", VBool true)].

(** [_process_export_job] *)
Definition _process_export_job (payload : dict) : outcome :=
  Returned [("export_completed", VBool true)].

(** The routing at the head of the [try] block of [process_job]. *)
Definition run_handler (w : World) (job_type : string) (payload : dict) : outcome :=
  if String.eqb job_type "process_invoice" then _process_invoice_job w payload
  else if String.eqb job_type "email_ingestion" then _process_email_ingestion_job w payload
  else if String.eqb job_type "generate_report" then _process_report_job payload
  else if String.eqb job_type "export_data" then _process_export_job payload
  else Raised ("Unknown job type: " ++ job_type)%string.

(** What one call of [process_job] takes from outside: the collaborators
    and the clock readings of its status updates. *)
Record Attempt : Type := mkAttempt {
  world : World;
  t_start : string;
  t_end : string
}.

(** [process_job].  [job] is the object the caller holds; the worker, the
    only caller, passes what [get_next_job] returned, the object stored in
    [self.jobs] under [id job], so [job.attempts += 1] shows in the queue.
    An object the queue does not hold is changed out of the queue's sight
    and the status updates find nothing under its id.  The back-off sleep
    between [RETRYING] and [PENDING] changes no field. *)
Definition process_job (q : JobQueue) (job : Job) (a : Attempt) : bool * JobQueue :=
  let job := set_attempts job (attempts job + 1) in
  let q :=
    match jobs_get (jobs q) (id job) with
    | Some _ => with_jobs q (jobs_set (jobs q) job)
    | None => q
    end in
  let q := update_job_status q (t_start a) (id job) PROCESSING None None in
  match run_handler (world a) (type job) (payload job) with
  | Returned res =>
    (true, update_job_status q (t_end a) (id job) COMPLETED None (Some res))
  | Raised error_msg =>
    if attempts job <? max_retries job then
      let q := update_job_status q (t_end a) (id job) RETRYING (Some error_msg) None in
      (false, update_job_status q (t_end a) (id job) PENDING None None)
    else
      (false, update_job_status q (t_end a) (id job) FAILED (Some error_msg) None)
  end.

(** One turn of the [while self.running] loop of [start_worker]; with no
    pending job the worker only sleeps. *)
Definition worker_iteration (q : JobQueue) (a : Attempt) : JobQueue :=
  match fst (get_next_job q) with
  | Some job => snd (process_job q job a)
  | None => q
  end.

(** [start_worker], for as many turns as [turns] is long. *)
Definition start_worker (q : JobQueue) (turns : list Attempt) : JobQueue :=
  fold_left worker_iteration turns (mkQueue (jobs q) (supabase q) true).

(** [stop_worker]; [_worker_task] is never assigned, so nothing is
    cancelled. *)
Definition stop_worker (q : JobQueue) : JobQueue :=
  mkQueue (jobs q) (supabase q) false.

(** The same job executed once per element of [turns], read back from the
    queue before each execution as the worker reads it. *)
Fixpoint execute_attempts (q : JobQueue) (job_id : string) (turns : list Attempt)
    : JobQueue :=
  match turns with
  | [] => q
  | a :: r =>
    match jobs_get (jobs q) job_id with
    | Some job => execute_attempts (snd (process_job q job a)) job_id r
    | None => q
    end
  end.

(** The state of the job object once [process_job] has returned: the
    assignments of [process_job] and of its status updates, in order. *)
Definition executed (job : Job) (a : Attempt) : Job :=
  let job := set_attempts job (attempts job + 1) in
  let job := apply_status job (t_start a) PROCESSING None None in
  match run_handler (world a) (type job) (payload job) with
  | Returned res => apply_status job (t_end a) COMPLETED None (Some res)
  | Raised error_msg =>
    if attempts job <? max_retries job then
      apply_status (apply_status job (t_end a) RETRYING (Some error_msg) None)
                   (t_end a) PENDING None None
    else apply_status job (t_end a) FAILED (Some error_msg) None
  end.

(** The job types [process_job] routes to a handler. *)
Definition registered (job_type : string) : bool :=
  String.eqb job_type "process_invoice"
  || String.eqb job_type "email_ingestion"
  || String.eqb job_type "generate_report"
  || String.eqb job_type "export_data".

(** The queues the program can be in: built by [JobQueue(...)], grown by
    [add_job], driven by turns of the worker.  Nothing else in the
    repository calls a method that writes to the queue. *)
Inductive reachable : JobQueue -> Prop :=
| reach_init (s : option (list DbRequest)) : reachable (init s)
| reach_add_job (q : JobQueue) (job_id now job_type : string) (payload : dict)
    (priority : JobPriority) (max_retries : Z) :
    reachable q ->
    reachable (snd (add_job q job_id now job_type payload priority max_retries))
| reach_worker (q : JobQueue) (a : Attempt) :
    reachable q -> reachable (worker_iteration q a).

End JobQueueModel.

(** ** Text: the [str] methods and the regular expressions the code uses *)

Module Text.

(** ["\n"] *)
Definition nl : string := String (ascii_of_nat 10) EmptyString.

(** [len(s)] *)
Definition len (s : string) : Z := Z.of_nat (String.length s).

Definition in_range (lo hi : N) (c : ascii) : bool :=
  (lo <=? N_of_ascii c)%N && (N_of_ascii c <=? hi)%N.

(** [c.isspace()], also what [str.strip()] removes and what [\s] matches
    in a [str] pattern: TAB to CR, FS to US, space, NEL and NBSP. *)
Definition isspace (c : ascii) : bool :=
  in_range 9 13 c || in_range 28 32 c
  || (N_of_ascii c =? 133)%N || (N_of_ascii c =? 160)%N.

(** What [\d] matches in a [str] pattern. *)
Definition isdigit (c : ascii) : bool := in_range 48 57 c.

(** [c.lower()] and [c.upper()].  The three letters below 256 whose
    capital lies above 255 (micro sign, sharp s, y with diaeresis) are
    left where they are by [upper]; no set of the patterns below holds
    them or their capital. *)
Definition lower_char (c : ascii) : ascii :=
  if in_range 65 90 c || in_range 192 214 c || in_range 216 222 c
  then ascii_of_N (N_of_ascii c + 32)
  else c.

Definition upper_char (c : ascii) : ascii :=
  if in_range 97 122 c || in_range 224 246 c || in_range 248 254 c
  then ascii_of_N (N_of_ascii c - 32)
  else c.

(** [s.lower()] *)
Fixpoint lower (s : string) : string :=
  match s with
  | EmptyString => EmptyString
  | String c r => String (lower_char c) (lower r)
  end.

(** [s.lstrip()], [s.rstrip()], [s.strip()] *)
Fixpoint lstrip (s : string) : string :=
  match s with
  | EmptyString => EmptyString
  | String c r => if isspace c then lstrip r else s
  end.

Fixpoint rstrip (s : string) : string :=
  match s with
  | EmptyString => EmptyString
  | String c r =>
    match rstrip r with
    | EmptyString => if isspace c then EmptyString else String c EmptyString
    | r' => String c r'
    end
  end.

Definition strip (s : string) : string := rstrip (lstrip s).

(** [s.lstrip(c)] for a one-character argument. *)
Fixpoint lstrip_char (c : ascii) (s : string) : string :=
  match s with
  | EmptyString => EmptyString
  | String c' r => if Ascii.eqb c' c then lstrip_char c r else s
  end.

(** [s.replace(c, '')] for a one-character [c]. *)
Fixpoint remove_char (c : ascii) (s : string) : string :=
  match s with
  | EmptyString => EmptyString
  | String c' r => if Ascii.eqb c' c then remove_char c r else String c' (remove_char c r)
  end.

(** [s[n:]] *)
Fixpoint drop (n : nat) (s : string) : string :=
  match n, s with
  | O, _ => s
  | S n', String _ r => drop n' r
  | S _, EmptyString => EmptyString
  end.

(** The part of [s] before the first occurrence of [sep], all of [s] if
    there is none: [s.split(sep)[0]]. *)
Fixpoint before (sep s : string) : string :=
  if String.prefix sep s then EmptyString
  else match s with
       | EmptyString => EmptyString
       | String c r => String c (before sep r)
       end.

(** [s.split(sep)[1]] for an [s] that starts with the three-character
    [sep]: what lies between the leading [sep] and the next one. *)
Definition split_1 (sep s : string) : string := before sep (drop 3 s).

(** Every string of [ls] followed by a newline, one after the other. *)
Definition lines (ls : list string) : string :=
  fold_right (fun l r => (l ++ nl ++ r)%string) EmptyString ls.

(** *** Regular expressions

    Every pattern of [_extract_with_regex] is a sequence of greedy
    repetitions of a one-character set, with one capturing group, and is
    compiled with [re.IGNORECASE]. *)

(** A member of a character set. *)
Inductive atom : Type :=
| Lit (c : ascii)        (* the character, in either case *)
| Range (lo hi : ascii)  (* [lo-hi], in either case *)
| Space                  (* [\s] *)
| Digit.                 (* [\d] *)

Definition atom_matches (a : atom) (c : ascii) : bool :=
  match a with
  | Lit x => Ascii.eqb (lower_char c) (lower_char x)
  | Range lo hi =>
    in_range (N_of_ascii lo) (N_of_ascii hi) c
    || in_range (N_of_ascii lo) (N_of_ascii hi) (lower_char c)
    || in_range (N_of_ascii lo) (N_of_ascii hi) (upper_char c)
  | Space => isspace c
  | Digit => isdigit c
  end.

(** An element of a pattern: [set{lo,hi}] ([hi = None] for no bound), or
    a parenthesis of group 1. *)
Inductive item : Type :=
| Rep (set : list atom) (lo : nat) (hi : option nat)
| Open
| Close.

Definition regex : Type := list item.

Definition set_matches (set : list atom) (c : ascii) : bool :=
  existsb (fun a => atom_matches a c) set.

(** Where group 1 stands during a match. *)
Inductive capture : Type :=
| NotOpened
| Opened (rev_chars : list ascii)
| Closed (chars : list ascii).

Definition push (cap : capture) (c : ascii) : capture :=
  match cap with
  | Opened acc => Opened (c :: acc)
  | _ => cap
  end.

Definition below (n : nat) (hi : option nat) : bool :=
  match hi with
  | Some h => Nat.ltb n h
  | None => true
  end.

(** [re.match]: the pattern matched at the head of [s], by backtracking.
    A repetition takes as many characters as it can and gives them back
    one at a time while the rest of the pattern fails.  The result is
    [group(1)] of the first match found in that order. *)
Fixpoint match_here (p : regex) : list ascii -> capture -> option (list ascii) :=
  match p with
  | [] => fun _ cap =>
    match cap with
    | Closed g => Some g
    | Opened acc => Some (rev acc)
    | NotOpened => Some []
    end
  | Open :: p' => fun s _ => match_here p' s (Opened [])
  | Close :: p' => fun s cap =>
    match cap with
    | Opened acc => match_here p' s (Closed (rev acc))
    | _ => match_here p' s cap
    end
  | Rep set lo hi :: p' =>
    (fix rep (n : nat) (s : list ascii) (cap : capture) {struct s}
       : option (list ascii) :=
       let stop := if Nat.leb lo n then match_here p' s cap else None in
       match s with
       | c :: s' =>
         if below n hi && set_matches set c then
           match rep (S n) s' (push cap c) with
           | Some g => Some g
           | None => stop
           end
         else stop
       | [] => stop
       end) O
  end.

(** [re.search(p, s, re.IGNORECASE).group(1)]: the match at the leftmost
    position that has one; [None] when no position has. *)
Fixpoint search_from (p : regex) (s : list ascii) : option (list ascii) :=
  match match_here p s NotOpened with
  | Some g => Some g
  | None =>
    match s with
    | [] => None
    | _ :: s' => search_from p s'
    end
  end.

Definition re_search (p : regex) (s : string) : option string :=
  option_map string_of_list_ascii (search_from p (list_ascii_of_string s)).

(** Pattern pieces. *)
Definition lit (s : string) : regex :=
  map (fun c => Rep [Lit c] 1 (Some 1%nat)) (list_ascii_of_string s).

Definition star (set : list atom) : item := Rep set 0 None.
Definition plus (set : list atom) : item := Rep set 1 None.
Definition opt (set : list atom) : item := Rep set 0 (Some 1%nat).
Definition one (set : list atom) : item := Rep set 1 (Some 1%nat).

(** *** [float(s)]

    For the strings a group [[\d,]+\.?\d*] yields once its commas are
    removed: digits with at most one point among them.  The value is the
    binary64 number nearest to the decimal, ties to even; a string with no
    digit raises [ValueError]. *)
Fixpoint read_digits (s : list ascii) (m : Z) (n : nat) : Z * nat * list ascii :=
  match s with
  | c :: r =>
    if isdigit c
    then read_digits r (10 * m + (Z.of_N (N_of_ascii c) - 48)) (S n)
    else (m, n, s)
  | [] => (m, n, [])
  end.

Definition binary64_of_decimal (m : Z) (frac_digits : nat) : spec_float :=
  match m with
  | Zpos mp =>
    SFdiv 53 1024 (S754_finite false mp 0)
                  (S754_finite false (Z.to_pos (10 ^ Z.of_nat frac_digits)) 0)
  | _ => S754_zero false
  end.

Definition float_of_string (s : string) : option spec_float :=
  let '(m1, n1, rest) := read_digits (list_ascii_of_string s) 0 0 in
  match rest with
  | [] => if Nat.eqb n1 0 then None else Some (binary64_of_decimal m1 0)
  | c :: rest' =>
    if Ascii.eqb c "."%char then
      let '(m2, n2, rest'') := read_digits rest' m1 0 in
      match rest'' with
      | [] => if Nat.eqb (n1 + n2) 0 then None else Some (binary64_of_decimal m2 n2)
      | _ => None
      end
    else None
  end.

End Text.

(** ** invoice_processor.py *)

Module InvoiceProcessorModel.
Import Text.

(** The exceptions the pipeline meets, by the place that raises them.
    [External msg] is an exception that comes out of a library or a
    service, [msg] being its [str(e)]. *)
Inductive error : Type :=
| InvoiceNotFound (invoice_id : string)
| NoFilePath (invoice_id : string)
| DownloadFailed (file_path : string)
| UnsupportedFileType (file_extension : string)
| NoMeaningfulText
| External (msg : string).

(** [str(e)] *)
Definition error_str (e : error) : string :=
  match e with
  | InvoiceNotFound invoice_id => ("Invoice " ++ invoice_id ++ " not found")%string
  | NoFilePath invoice_id => ("Invoice " ++ invoice_id ++ " has no file_path")%string
  | DownloadFailed file_path =>
    ("Failed to download file from storage: " ++ file_path)%string
  | UnsupportedFileType file_extension =>
    ("Unsupported file type: " ++ file_extension)%string
  | NoMeaningfulText => "OCR failed to extract meaningful text from invoice"
  | External msg => msg
  end.

Section Pipeline.

(** A [PIL.Image]. *)
Variable image : Type.

(** What the pipeline does outside itself, in the order it does it: the
    calls to the database and the storage bucket, to PyPDF2, pdf2image,
    PIL, Tesseract and Gemini, and the entry into the regex stage. *)
Inductive event : Type :=
| EvSelectInvoice (invoice_id : string)
| EvDownload (clean_path : string)
| EvUpdateInvoice (invoice_id : string) (update_data : dict)
| EvPdfReader
| EvConvertFromPath (dpi : Z)
| EvImageOpen
| EvImageToString (page : image)
| EvGenerateContent (prompt : string)
| EvRegex (text : string).

(** The libraries and services, each call returning its value or the
    message of the exception it raises. *)
Record Collaborators : Type := mkCollaborators {
  (** [supabase.table('invoices').select('*').eq('id', id).execute().data] *)
  select_invoice : string -> string + list dict;
  (** [supabase.storage.from_('invoices').download(path)]; the empty
      sequence stands for every falsy response. *)
  storage_download : string -> string + list byte;
  (** [supabase.table('invoices').update(data).eq('id', id).execute()] *)
  update_invoice : string -> dict -> string + unit;
  (** [Path(file_path).suffix] *)
  path_suffix : string -> string;
  (** [page.extract_text()] of every page of [PyPDF2.PdfReader(...)] *)
  pdf_page_texts : list byte -> string + list string;
  (** [convert_from_path] on the temporary copy of the PDF *)
  convert_from_path : list byte -> Z -> string + list image;
  (** [Image.open(io.BytesIO(image_bytes))] *)
  image_open : list byte -> string + image;
  (** [pytesseract.image_to_string(image, lang='eng')] *)
  image_to_string : image -> string + string;
  (** [self.model.generate_content(prompt).text] *)
  generate_content : string -> string + string;
  (** [json.loads] *)
  json_loads : string -> string + value
}.

(** A computation of the pipeline: how it ends and what it did. *)
Definition M (A : Type) : Type := (error + A) * list event.

Definition ret {A : Type} (a : A) : M A := (inr a, []).

Definition raise {A : Type} (e : error) : M A := (inl e, []).

Definition bind {A B : Type} (m : M A) (f : A -> M B) : M B :=
  match fst m with
  | inl e => (inl e, snd m)
  | inr a => (fst (f a), snd m ++ snd (f a))
  end.

(** [try: m  except Exception as e: h e] *)
Definition try_except {A : Type} (m : M A) (h : error -> M A) : M A :=
  match fst m with
  | inl e => (fst (h e), snd m ++ snd (h e))
  | inr a => m
  end.

(** A call that is seen from outside. *)
Definition call {A : Type} (ev : event) (r : string + A) : M A :=
  (match r with inl msg => inl (External msg) | inr a => inr a end, [ev]).

(** A library function that may raise. *)
Definition lib {A : Type} (r : string + A) : M A :=
  (match r with inl msg => inl (External msg) | inr a => inr a end, []).

(** [m] raises nothing but what a library or a service raised. *)
Definition external_only {A : Type} (m : M A) : Prop :=
  forall e, fst m = inl e -> exists msg, e = External msg.

Notation "x <- m ;; k" := (bind m (fun x => k))
  (at level 61, m at next level, right associativity).

Variable env : Collaborators.

(** The instance: [gemini_enabled] is decided once, in [__init__]. *)
Record InvoiceProcessor : Type := mkProcessor {
  gemini_api_key : string;
  gemini_enabled : bool
}.

(** [InvoiceProcessor.__init__] *)
Definition new_processor (api_key : string) : InvoiceProcessor :=
  mkProcessor api_key
    (negb (String.eqb api_key EmptyString) && negb (String.eqb api_key "your-gemini-api-key")).

(** [_download_file_from_storage] *)
Definition _download_file_from_storage (file_path : string) : M (list byte) :=
  let clean_path := lstrip_char "/"%char file_path in
  response <- call (EvDownload clean_path) (storage_download env clean_path) ;;
  match response with
  | [] => raise (DownloadFailed file_path)
  | _ => ret response
  end.

(** The loop over [pdf_reader.pages]. *)
Definition join_page_texts (page_texts : list string) : string :=
  fold_left (fun text page_text =>
               match page_text with
               | EmptyString => text
               | _ => (text ++ page_text ++ nl)%string
               end) page_texts EmptyString.

(** The loop over the page images. *)
Fixpoint ocr_pages (images : list image) (ocr_text : string) : M string :=
  match images with
  | [] => ret ocr_text
  | page :: rest =>
    page_text <- call (EvImageToString page) (image_to_string env page) ;;
    ocr_pages rest (ocr_text ++ page_text ++ nl)%string
  end.

(** [_extract_text_from_pdf].  Its [except] clause logs and raises again;
    the temporary file is written for [convert_from_path] and removed
    whatever happens. *)
Definition _extract_text_from_pdf (pdf_bytes : list byte) : M string :=
  page_texts <- call EvPdfReader (pdf_page_texts env pdf_bytes) ;;
  let text := join_page_texts page_texts in
  if negb (String.eqb text EmptyString) && (50 <? len (strip text)) then ret text
  else
    images <- call (EvConvertFromPath 300) (convert_from_path env pdf_bytes 300) ;;
    ocr_pages images EmptyString.

(** [_extract_text_from_image] *)
Definition _extract_text_from_image (image_bytes : list byte) : M string :=
  img <- call EvImageOpen (image_open env image_bytes) ;;
  call (EvImageToString img) (image_to_string env img).

Definition image_extensions : list string :=
  [".png"; ".jpg"; ".jpeg"; ".tiff"; ".bmp"].

(** [Path(file_path).suffix.lower()] *)
Definition file_extension_of (file_path : string) : string :=
  lower (path_suffix env file_path).

(** [_extract_text_from_file] *)
Definition _extract_text_from_file (file_bytes : list byte) (file_path : string)
    : M string :=
  let file_extension := file_extension_of file_path in
  if String.eqb file_extension ".pdf" then _extract_text_from_pdf file_bytes
  else if existsb (String.eqb file_extension) image_extensions
  then _extract_text_from_image file_bytes
  else raise (UnsupportedFileType file_extension).

(** *** Structuring *)

Definition invoice_patterns : list regex :=
  [ lit "Invoice" ++ [star [Space]; opt [Lit "#"]; star [Space]; opt [Lit ":"];
                      star [Space];
                      Open; plus [Range "A" "Z"; Range "0" "9"; Lit "-"]; Close];
    lit "Invoice" ++ [star [Space]] ++ lit "Number"
      ++ [star [Space]; opt [Lit ":"]; star [Space];
          Open; plus [Range "A" "Z"; Range "0" "9"; Lit "-"]; Close];
    lit "INV" ++ [star [Lit "-"; Space];
                  Open; plus [Range "A" "Z"; Range "0" "9"; Lit "-"]; Close] ].

(** [(\d{1,2}[/-]\d{1,2}[/-]\d{2,4})] *)
Definition date_group : regex :=
  [ Open; Rep [Digit] 1 (Some 2%nat); one [Lit "/"; Lit "-"];
    Rep [Digit] 1 (Some 2%nat); one [Lit "/"; Lit "-"];
    Rep [Digit] 2 (Some 4%nat); Close ].

Definition date_patterns : list regex :=
  [ lit "Date" ++ [star [Space]; opt [Lit ":"]; star [Space]] ++ date_group;
    lit "Invoice" ++ [star [Space]] ++ lit "Date"
      ++ [star [Space]; opt [Lit ":"]; star [Space]] ++ date_group;
    date_group ].

(** What follows the keyword in every amount pattern: optional blanks,
    colon and dollar sign, then the group, digits and commas with an
    optional point and further digits. *)
Definition amount_tail : regex :=
  [ star [Space]; opt [Lit ":"]; star [Space]; opt [Lit "$"]; star [Space];
    Open; plus [Digit; Lit ","]; opt [Lit "."]; star [Digit]; Close ].

Definition amount_patterns : list regex :=
  [ lit "Total" ++ amount_tail;
    lit "Amount" ++ [star [Space]] ++ lit "Due" ++ amount_tail;
    lit "Grand" ++ [star [Space]] ++ lit "Total" ++ amount_tail ].

(** [for pattern in patterns: match = re.search(...); if match: ...; break]:
    group 1 of the first pattern of the list that matches. *)
Fixpoint first_match (patterns : list regex) (text : string) : option string :=
  match patterns with
  | [] => None
  | pattern :: rest =>
    match re_search pattern text with
    | Some g => Some g
    | None => first_match rest text
    end
  end.

(** [_extract_with_regex] *)
Definition _extract_with_regex (text : string) : M value :=
  let extracted :=
    [ ("vendor_name", VNone); ("invoice_number", VNone); ("invoice_date", VNone);
      ("total_amount", VNone); ("currency", VStr "USD") ] in
  let extracted :=
    match first_match invoice_patterns text with
    | Some g => dict_set extracted "invoice_number" (VStr g)
    | None => extracted
    end in
  let extracted :=
    match first_match date_patterns text with
    | Some g => dict_set extracted "invoice_date" (VStr g)
    | None => extracted
    end in
  let extracted :=
    match first_match amount_patterns text with
    | Some g =>
      let amount_str := remove_char ","%char g in
      match float_of_string amount_str with
      | Some f => dict_set extracted "total_amount" (VFloat f)
      | None => extracted
      end
    | None => extracted
    end in
  (inr (VDict extracted), [EvRegex text]).

(** The f-string of [_extract_with_gemini], the invoice text between its
    two constant parts. *)
Definition dq : string := String (ascii_of_nat 34) EmptyString.

Definition field (name description : string) : string :=
  ("  " ++ dq ++ name ++ dq ++ ": " ++ dq ++ description ++ dq)%string.

Definition item_field (name description : string) : string :=
  ("      " ++ dq ++ name ++ dq ++ ": " ++ dq ++ description ++ dq)%string.

Definition prompt_head : string :=
  (nl ++ lines
    [ "You are an expert invoice data extraction assistant. Extract the following information from this invoice text.";
      "Return your response as a valid JSON object with these exact fields (use null for missing values):";
      EmptyString;
      "{";
      field "vendor_name" "Company or person issuing the invoice" ++ ",";
      field "invoice_number" "Invoice number or ID" ++ ",";
      field "invoice_date" "Invoice date in YYYY-MM-DD format" ++ ",";
      field "due_date" "Payment due date in YYYY-MM-DD format" ++ ",";
      field "total_amount" "Total amount as a number (no currency symbols)" ++ ",";
      field "subtotal" "Subtotal before tax as a number" ++ ",";
      field "tax_amount" "Tax/VAT amount as a number" ++ ",";
      field "vat_amount" "VAT amount as a number (same as tax_amount if VAT is mentioned)" ++ ",";
      field "currency" "Currency code (USD, EUR, GBP, AED, SAR, etc.)" ++ ",";
      field "customer_name" "Customer/buyer name" ++ ",";
      field "customer_address" "Customer address" ++ ",";
      field "vendor_address" "Vendor/seller address" ++ ",";
      field "payment_terms" "Payment terms (e.g., 'Net 30', 'Due on receipt')" ++ ",";
      field "payment_method" "Payment method if mentioned" ++ ",";
      field "po_number" "Purchase order number if present" ++ ",";
      field "vat_number" "VAT registration number" ++ ",";
      field "trn" "Tax Registration Number (TRN) for UAE invoices" ++ ",";
      field "notes" "Any notes or special instructions" ++ ",";
      "  " ++ dq ++ "line_items" ++ dq ++ ": [";
      "    {";
      item_field "description" "Item description" ++ ",";
      item_field "quantity" "Quantity as number" ++ ",";
      item_field "unit_price" "Unit price as number" ++ ",";
      item_field "amount" "Line total as number";
      "    }";
      "  ]";
      "}";
      EmptyString;
      "INVOICE TEXT:" ])%string.

Definition prompt_tail : string :=
  (nl ++ lines [ EmptyString; "Return ONLY the JSON object, no other text." ])%string.

Definition build_prompt (text : string) : string :=
  (prompt_head ++ text ++ prompt_tail)%string.

(** The removal of a markdown code fence around the response. *)
Definition strip_code_fence (response_text : string) : string :=
  if String.prefix "```" response_text then
    let response_text := split_1 "```" response_text in
    let response_text :=
      if String.prefix "json" response_text then drop 4 response_text
      else response_text in
    strip response_text
  else response_text.

(** [_extract_with_gemini] *)
Definition _extract_with_gemini (text : string) : M value :=
  try_except
    (let prompt := build_prompt text in
     response <- call (EvGenerateContent prompt) (generate_content env prompt) ;;
     let response_text := strip_code_fence (strip response) in
     extracted_data <- lib (json_loads env response_text) ;;
     ret extracted_data)
    (fun _ => _extract_with_regex text).

(** [_extract_invoice_data] *)
Definition _extract_invoice_data (self : InvoiceProcessor) (text : string) : M value :=
  if gemini_enabled self then _extract_with_gemini text
  else _extract_with_regex text.

(** The events of the structuring stages. *)
Definition is_structuring (ev : event) : bool :=
  match ev with
  | EvGenerateContent _ | EvRegex _ => true
  | _ => false
  end.

(** The events of the OCR stage. *)
Definition is_ocr (ev : event) : bool :=
  match ev with
  | EvConvertFromPath _ | EvImageToString _ => true
  | _ => false
  end.

(** *** The whole pipeline *)

(** [bool(v)] *)
Definition truthy (v : value) : bool :=
  match v with
  | VNone => false
  | VBool b => b
  | VInt z => negb (z =? 0)
  | VFloat f => negb (SFeqb f (S754_zero false))
  | VStr s => negb (String.eqb s EmptyString)
  | VList l => match l with [] => false | _ => true end
  | VDict d => match d with [] => false | _ => true end
  end.

(** [type(v).__name__] *)
Definition type_name (v : value) : string :=
  match v with
  | VNone => "NoneType"
  | VBool _ => "bool"
  | VInt _ => "int"
  | VFloat _ => "float"
  | VStr _ => "str"
  | VList _ => "list"
  | VDict _ => "dict"
  end.

(** [update_data] of [process_invoice], [None] values removed. *)
Definition build_update_data (structured_data : dict) (now : string) : dict :=
  let get := dict_get structured_data in
  filter (fun kv => match snd kv with VNone => false | _ => true end)
    [ ("status", VStr "completed");
      ("processed_at", VStr (now ++ "Z"));
      ("vendor_name", get "vendor_name");
      ("invoice_number", get "invoice_number");
      ("invoice_date", get "invoice_date");
      ("due_date", get "due_date");
      ("total_amount", get "total_amount");
      ("subtotal", get "subtotal");
      ("tax_amount", get "tax_amount");
      ("vat_amount", get "vat_amount");
      ("currency", dict_get_default structured_data "currency" (VStr "USD"));
      ("customer_name", get "customer_name");
      ("customer_address", get "customer_address");
      ("vendor_address", get "vendor_address");
      ("payment_terms", get "payment_terms");
      ("payment_method", get "payment_method");
      ("po_number", get "po_number");
      ("line_items", dict_get_default structured_data "line_items" (VList []));
      ("notes", get "notes");
      ("vat_number", get "vat_number");
      ("trn", get "trn") ].

(** The [try] block of [process_invoice], from the text extraction on. *)
Definition extract_and_store (self : InvoiceProcessor) (invoice_id now : string)
    (file_bytes : list byte) (file_path : string) : M value :=
  extracted_text <- _extract_text_from_file file_bytes file_path ;;
  if String.eqb extracted_text EmptyString || (len (strip extracted_text) <? 10)
  then raise NoMeaningfulText
  else
    structured_data <- _extract_invoice_data self extracted_text ;;
    match structured_data with
    | VDict d =>
      _ <- call (EvUpdateInvoice invoice_id (build_update_data d now))
                (update_invoice env invoice_id (build_update_data d now)) ;;
      ret (VDict [ ("success", VBool true);
                   ("invoice_id", VStr invoice_id);
                   ("extracted_data", structured_data);
                   ("text_length", VInt (len extracted_text)) ])
    | other =>
      raise (External ("'" ++ type_name other ++ "' object has no attribute 'get'"))
    end.

(** The update [process_invoice] writes when it has caught [e]. *)
Definition failure_update (now : string) (e : error) : dict :=
  [ ("status", VStr "failed");
    ("error_message", VStr (error_str e));
    ("processed_at", VStr (now ++ "Z")) ].

(** [process_invoice].  [now] is the reading of the clock the call takes,
    on the success path or in the handler. *)
Definition process_invoice (self : InvoiceProcessor) (invoice_id user_id now : string)
    : M value :=
  try_except
    (rows <- call (EvSelectInvoice invoice_id) (select_invoice env invoice_id) ;;
     match rows with
     | [] => raise (InvoiceNotFound invoice_id)
     | invoice :: _ =>
       match dict_get invoice "file_path" with
       | VStr file_path =>
         if String.eqb file_path EmptyString then raise (NoFilePath invoice_id)
         else
           file_bytes <- _download_file_from_storage file_path ;;
           extract_and_store self invoice_id now file_bytes file_path
       | other =>
         if truthy other
         then raise (External ("'" ++ type_name other
                               ++ "' object has no attribute 'lstrip'"))
         else raise (NoFilePath invoice_id)
       end
     end)
    (fun e =>
       _ <- call (EvUpdateInvoice invoice_id (failure_update now e))
                 (update_invoice env invoice_id (failure_update now e)) ;;
       ret (VDict [ ("success", VBool false);
                    ("invoice_id", VStr invoice_id);
                    ("error", VStr (error_str e)) ])).

End Pipeline.

Arguments EvSelectInvoice {image}.
Arguments EvDownload {image}.
Arguments EvUpdateInvoice {image}.
Arguments EvPdfReader {image}.
Arguments EvConvertFromPath {image}.
Arguments EvImageOpen {image}.
Arguments EvImageToString {image}.
Arguments EvGenerateContent {image}.
Arguments EvRegex {image}.
Arguments ret {image A}.
Arguments raise {image A}.
Arguments bind {image A B}.
Arguments try_except {image A}.
Arguments call {image A}.
Arguments lib {image A}.
Arguments external_only {image A}.
Arguments select_invoice {image}.
Arguments storage_download {image}.
Arguments update_invoice {image}.
Arguments path_suffix {image}.
Arguments pdf_page_texts {image}.
Arguments convert_from_path {image}.
Arguments image_open {image}.
Arguments image_to_string {image}.
Arguments generate_content {image}.
Arguments json_loads {image}.
Arguments _download_file_from_storage {image}.
Arguments ocr_pages {image}.
Arguments _extract_text_from_pdf {image}.
Arguments _extract_text_from_image {image}.
Arguments file_extension_of {image}.
Arguments _extract_text_from_file {image}.
Arguments _extract_with_regex {image}.
Arguments _extract_with_gemini {image}.
Arguments _extract_invoice_data {image}.
Arguments is_structuring {image}.
Arguments is_ocr {image}.
Arguments extract_and_store {image}.
Arguments process_invoice {image}.

End InvoiceProcessorModel.

(** ** job_queue.py: statistics and back-off *)

Module JobQueueMore.
Import JobQueueModel.

(** [sum(1 for j in self.jobs.values() if j.status == s)] *)
Definition count_status (js : list Job) (s : JobStatus) : Z :=
  fold_right (fun j n => (if status_eqb (status j) s then 1 else 0) + n) 0 js.

(** The dict [get_stats] returns. *)
Record Stats : Type := mkStats {
  total_jobs : Z;
  pending : Z;
  processing : Z;
  completed : Z;
  failed : Z;
  retrying : Z
}.

(** [get_stats] *)
Definition get_stats (q : JobQueue) : Stats :=
  mkStats (Z.of_nat (List.length (jobs q)))
          (count_status (jobs q) PENDING)
          (count_status (jobs q) PROCESSING)
          (count_status (jobs q) COMPLETED)
          (count_status (jobs q) FAILED)
          (count_status (jobs q) RETRYING).

(** The seconds one call of [process_job] sleeps: [2 ** job.attempts] in
    the retry branch, [attempts] being the counter after its increment,
    and nothing elsewhere. *)
Definition backoff (job : Job) (a : Attempt) : Z :=
  let job := set_attempts job (attempts job + 1) in
  match run_handler (world a) (type job) (payload job) with
  | Returned _ => 0
  | Raised _ => if attempts job <? max_retries job then 2 ^ attempts job else 0
  end.

(** The seconds slept over the executions of [execute_attempts]. *)
Fixpoint total_backoff (q : JobQueue) (job_id : string) (turns : list Attempt) : Z :=
  match turns with
  | [] => 0
  | a :: r =>
    match jobs_get (jobs q) job_id with
    | Some job => backoff job a + total_backoff (snd (process_job q job a)) job_id r
    | None => 0
    end
  end.

End JobQueueMore.

(** ** invoice_processor.py: kinds of events and shapes of text *)

Module InvoiceProcessorMore.
Import Text InvoiceProcessorModel.

(** The loop of a repetition in [match_here], with what follows the
    repetition as [k]. *)
Definition rep_from (k : list ascii -> capture -> option (list ascii))
    (set : list atom) (lo : nat) (hi : option nat)
    : nat -> list ascii -> capture -> option (list ascii) :=
  fix rep (n : nat) (s : list ascii) (cap : capture) {struct s}
    : option (list ascii) :=
    let stop := if Nat.leb lo n then k s cap else None in
    match s with
    | c :: s' =>
      if below n hi && set_matches set c then
        match rep (S n) s' (push cap c) with
        | Some g => Some g
        | None => stop
        end
      else stop
    | [] => stop
    end.

(** A list of patterns without its second one. *)
Definition without_second {A : Type} (l : list A) : list A :=
  match l with
  | a :: _ :: r => a :: r
  | _ => l
  end.

(** The writes to the invoice row. *)
Definition is_update {image : Type} (ev : event image) : bool :=
  match ev with
  | EvUpdateInvoice _ _ => true
  | _ => false
  end.

(** The calls to the generative model. *)
Definition is_generate {image : Type} (ev : event image) : bool :=
  match ev with
  | EvGenerateContent _ => true
  | _ => false
  end.

(** The calls that read a PDF: PyPDF2 and pdf2image. *)
Definition is_pdf_call {image : Type} (ev : event image) : bool :=
  match ev with
  | EvPdfReader | EvConvertFromPath _ => true
  | _ => false
  end.

(** [n] slashes. *)
Fixpoint slashes (n : nat) : string :=
  match n with
  | O => EmptyString
  | S n' => String "/"%char (slashes n')
  end.

(** No backtick occurs in [s]. *)
Fixpoint no_backtick (s : string) : bool :=
  match s with
  | EmptyString => true
  | String c r => negb (Ascii.eqb c "`"%char) && no_backtick r
  end.

(** A value as a column of the update: [None] is left out. *)
Definition not_none (v : value) : option value :=
  match v with
  | VNone => None
  | _ => Some v
  end.

(** What [process_invoice] returns when it has caught [e]. *)
Definition failure_result (invoice_id : string) (e : error) : value :=
  VDict [ ("success", VBool false); ("invoice_id", VStr invoice_id);
          ("error", VStr (error_str e)) ].

(** The columns [process_invoice] copies from the extracted record with
    no default. *)
Definition plain_columns : list string :=
  [ "vendor_name"; "invoice_number"; "invoice_date"; "due_date"; "total_amount";
    "subtotal"; "tax_amount"; "vat_amount"; "customer_name"; "customer_address";
    "vendor_address"; "payment_terms"; "payment_method"; "po_number"; "notes";
    "vat_number"; "trn" ].

(** [m] calls the generative model at most [n] times. *)
Definition generates_at_most {image A : Type} (n : nat) (m : M image A) : Prop :=
  (List.length (filter is_generate (snd m)) <= n)%nat.

(** The two ways the [try] block of [process_invoice] can end when the
    database takes every write: with the success record, its last event
    the one write of the row, status "completed"; or with an exception,
    the row not written. *)
Definition settled {image : Type} (invoice_id : string) (m : M image value) : Prop :=
  (exists d data t,
     m = (inr (VDict d), t ++ [EvUpdateInvoice invoice_id data])
     /\ existsb is_update t = false
     /\ dict_get d "success" = VBool true
     /\ dict_get d "invoice_id" = VStr invoice_id
     /\ dict_lookup data "status" = Some (VStr "completed"))
  \/ (exists e t, m = (inl e, t) /\ existsb is_update t = false).

End InvoiceProcessorMore.

(** ** Concrete queues used as examples *)

Module QueueScenarios.
Import JobQueueModel.

(** An execution attempt that finds no collaborator configured. *)
Definition no_collaborators : Attempt :=
  mkAttempt (mkWorld None None) "2024-01-01T00:00:01" "2024-01-01T00:00:02".

(** An execution attempt that finds the database client working. *)
Definition database_up : Attempt :=
  mkAttempt (mkWorld (Some None) None) "2024-01-01T00:00:03" "2024-01-01T00:00:04".

(** A job of a type no handler exists for, as [add_job] creates it. *)
Definition unknown_job (n : Z) : Job :=
  mkJob "job-1" "no_such_type" [] PENDING NORMAL 0 n None None
        "2024-01-01T00:00:00" None None.

Definition unknown_queue (n : Z) : JobQueue :=
  snd (add_job (init None) "job-1" "2024-01-01T00:00:00" "no_such_type" [] NORMAL n).

(** A HIGH job submitted before a CRITICAL one. *)
Definition job_high : Job :=
  mkJob "job-h" "process_invoice" [] PENDING HIGH 0 3 None None
        "2024-01-01T00:00:00" None None.

Definition job_critical : Job :=
  mkJob "job-c" "process_invoice" [] PENDING CRITICAL 0 3 None None
        "2024-01-01T00:00:05" None None.

Definition high_then_critical : JobQueue :=
  let q := snd (add_job (init None) "job-h" "2024-01-01T00:00:00"
                        "process_invoice" [] HIGH 3) in
  snd (add_job q "job-c" "2024-01-01T00:00:05" "process_invoice" [] CRITICAL 3).

(** An invoice job whose first execution finds no database client. *)
Definition invoice_job : Job :=
  mkJob "job-7" "process_invoice" [("invoice_id", VStr "inv-7")] PENDING NORMAL
        0 3 None None "2024-01-01T00:00:00" None None.

Definition invoice_queue : JobQueue :=
  snd (add_job (init None) "job-7" "2024-01-01T00:00:00" "process_invoice"
               [("invoice_id", VStr "inv-7")] NORMAL 3).

Definition invoice_queue_failed_once : JobQueue :=
  worker_iteration invoice_queue no_collaborators.

Definition invoice_job_failed_once : Job :=
  executed invoice_job no_collaborators.

End QueueScenarios.

(** ** Concrete documents used as examples *)

Module InvoiceScenarios.
Import Text InvoiceProcessorModel.

(** Collaborators for one stored document: its path ends in [suffix], its
    PDF text layer has the pages [pages], and a page image is stood for by
    the text Tesseract reads from it, [ocr] listing the pages.  The
    generative model is out of quota. *)
Definition document (suffix : string) (pages ocr : list string)
    : Collaborators string :=
  mkCollaborators string
    (fun invoice_id =>
       inr [[("id", VStr invoice_id);
             ("file_path", VStr ("/user-1/scan" ++ suffix))]])
    (fun _ => inr [x25; x50; x44; x46])
    (fun _ _ => inr tt)
    (fun _ => suffix)
    (fun _ => inr pages)
    (fun _ _ => inr ocr)
    (fun _ => inr (hd EmptyString ocr))
    (fun page => inr page)
    (fun _ => inl "429 quota exceeded")
    (fun _ => inl "Expecting value: line 1 column 1 (char 0)").

(** The same with a generative model that answers [response], and a JSON
    parser that accepts nothing but the text [{}]. *)
Definition document_with_model (suffix : string) (pages ocr : list string)
    (response : string) : Collaborators string :=
  mkCollaborators string
    (select_invoice (document suffix pages ocr))
    (storage_download (document suffix pages ocr))
    (update_invoice (document suffix pages ocr))
    (path_suffix (document suffix pages ocr))
    (pdf_page_texts (document suffix pages ocr))
    (convert_from_path (document suffix pages ocr))
    (image_open (document suffix pages ocr))
    (image_to_string (document suffix pages ocr))
    (fun _ => inr response)
    (fun s => if String.eqb s "{}" then inr (VDict [])
              else inl "Expecting value: line 1 column 1 (char 0)").

(** A database with no invoice in it. *)
Definition empty_database : Collaborators string :=
  mkCollaborators string
    (fun _ => inr []) (fun _ => inr []) (fun _ _ => inr tt) (fun _ => EmptyString)
    (fun _ => inr []) (fun _ _ => inr []) (fun _ => inl "cannot identify image file")
    (fun page => inr page) (fun _ => inl "429 quota exceeded")
    (fun _ => inl "Expecting value: line 1 column 1 (char 0)").

(** The same database when it refuses every write. *)
Definition read_only_database : Collaborators string :=
  mkCollaborators string
    (fun _ => inr []) (fun _ => inr []) (fun _ _ => inl "connection lost")
    (fun _ => EmptyString)
    (fun _ => inr []) (fun _ _ => inr []) (fun _ => inl "cannot identify image file")
    (fun page => inr page) (fun _ => inl "429 quota exceeded")
    (fun _ => inl "Expecting value: line 1 column 1 (char 0)").

Definition fifty_chars : string :=
  "INVOICE-2024-0001-ACME-CORPORATION-TOTAL-USD-99.00".

Definition ten_chars : string := "0123456789".

Definition scenario_text : string := "Invoice #1001 Total: $250.00".

(** The binary64 number 250. *)
Definition float_250 : spec_float := S754_finite false 8796093022208000 (-45).

End InvoiceScenarios.
(** ** Strict order on strings: Python's [<] on [str] *)

Module StrOrder.

Lemma ascii_compare_refl (a : ascii) : Ascii.compare a a = Eq.
Proof. unfold Ascii.compare. apply N.compare_refl. Qed.

Lemma ascii_lt_trans (a b c : ascii) :
  Ascii.compare a b = Lt -> Ascii.compare b c = Lt -> Ascii.compare a c = Lt.
Proof.
  unfold Ascii.compare. rewrite !N.compare_lt_iff. apply N.lt_trans.
Qed.

Lemma compare_refl (s : string) : String.compare s s = Eq.
Proof.
  induction s as [|a s IH]; simpl; [reflexivity|].
  now rewrite ascii_compare_refl.
Qed.

Lemma ltb_irrefl (s : string) : String.ltb s s = false.
Proof. unfold String.ltb. now rewrite compare_refl. Qed.

Lemma compare_lt_trans (s1 : string) :
  forall s2 s3,
    String.compare s1 s2 = Lt -> String.compare s2 s3 = Lt ->
    String.compare s1 s3 = Lt.
Proof.
  induction s1 as [|a s1 IH]; intros [|b s2] [|c s3]; simpl; try congruence.
  destruct (Ascii.compare a b) eqn:Hab; try discriminate;
    destruct (Ascii.compare b c) eqn:Hbc; try discriminate; intros H1 H2.
  - apply Ascii.compare_eq_iff in Hab, Hbc. subst.
    rewrite ascii_compare_refl. eauto.
  - apply Ascii.compare_eq_iff in Hab. subst. now rewrite Hbc.
  - apply Ascii.compare_eq_iff in Hbc. subst. now rewrite Hab.
  - now rewrite (ascii_lt_trans a b c).
Qed.

Lemma ltb_trans (s1 s2 s3 : string) :
  String.ltb s1 s2 = true -> String.ltb s2 s3 = true -> String.ltb s1 s3 = true.
Proof.
  unfold String.ltb.
  destruct (String.compare s1 s2) eqn:H12; try discriminate.
  destruct (String.compare s2 s3) eqn:H23; try discriminate.
  now rewrite (compare_lt_trans _ _ _ H12 H23).
Qed.

Lemma ltb_asym (s1 s2 : string) :
  String.ltb s1 s2 = true -> String.ltb s2 s1 = false.
Proof.
  unfold String.ltb. rewrite (String.compare_antisym s2 s1).
  now destruct (String.compare s1 s2).
Qed.

(** Any two strings are equal or strictly ordered one way. *)
Lemma ltb_trichotomy (s1 s2 : string) :
  String.ltb s1 s2 = true \/ s1 = s2 \/ String.ltb s2 s1 = true.
Proof.
  unfold String.ltb. rewrite (String.compare_antisym s2 s1).
  destruct (String.compare s1 s2) eqn:H; simpl; auto.
  right; left. now apply String.compare_eq_iff.
Qed.

Lemma ltb_leb (s1 s2 : string) :
  String.ltb s1 s2 = false <-> String.leb s2 s1 = true.
Proof.
  unfold String.ltb, String.leb. rewrite (String.compare_antisym s2 s1).
  destruct (String.compare s1 s2); simpl; intuition congruence.
Qed.

End StrOrder.

(** ** Properties of the job queue *)

Module JobQueueProofs.
Import JobQueueModel QueueScenarios.

Lemma status_eqb_eq (a b : JobStatus) : status_eqb a b = true <-> a = b.
Proof. destruct a, b; simpl; split; congruence. Qed.

(** *** The dict of jobs *)

Lemma jobs_get_id (js : list Job) (k : string) (j : Job) :
  jobs_get js k = Some j -> id j = k.
Proof.
  unfold jobs_get. intros H. apply find_some in H.
  now apply String.eqb_eq.
Qed.

Lemma jobs_get_In (js : list Job) (k : string) (j : Job) :
  jobs_get js k = Some j -> In j js.
Proof. unfold jobs_get. intros H. now apply find_some in H. Qed.

Lemma jobs_get_set_same (js : list Job) (j : Job) :
  jobs_get (jobs_set js j) (id j) = Some j.
Proof.
  induction js as [|x r IH]; simpl.
  - now rewrite String.eqb_refl.
  - destruct (String.eqb (id x) (id j)) eqn:E; simpl.
    + now rewrite String.eqb_refl.
    + now rewrite E.
Qed.

Lemma jobs_get_set_other (js : list Job) (j : Job) (k : string) :
  k <> id j -> jobs_get (jobs_set js j) k = jobs_get js k.
Proof.
  intros Hk. induction js as [|x r IH]; simpl.
  - apply String.eqb_neq in Hk. now rewrite String.eqb_sym, Hk.
  - destruct (String.eqb (id x) (id j)) eqn:E; simpl.
    + apply String.eqb_eq in E. rewrite E.
      apply String.eqb_neq in Hk. now rewrite String.eqb_sym, Hk.
    + now rewrite IH.
Qed.

Lemma jobs_db_request (q : JobQueue) (r : DbRequest) :
  jobs (db_request q r) = jobs q.
Proof. unfold db_request. now destruct (supabase q). Qed.

Lemma id_apply_status job now st e r : id (apply_status job now st e r) = id job.
Proof.
  unfold apply_status.
  repeat match goal with |- context [if ?b then _ else _] => destruct b end;
    reflexivity.
Qed.

(** [update_job_status] rewrites the job it is given the id of. *)
Lemma update_job_status_same q now job st e r :
  jobs_get (jobs q) (id job) = Some job ->
  jobs_get (jobs (update_job_status q now (id job) st e r)) (id job)
  = Some (apply_status job now st e r).
Proof.
  intros H. unfold update_job_status. rewrite H.
  rewrite jobs_db_request. simpl.
  pose proof (jobs_get_set_same (jobs q) (apply_status job now st e r)) as G.
  now rewrite id_apply_status in G.
Qed.

(** ... and no other. *)
Lemma update_job_status_other q now job_id st e r k :
  k <> job_id ->
  jobs_get (jobs (update_job_status q now job_id st e r)) k = jobs_get (jobs q) k.
Proof.
  intros Hk. unfold update_job_status.
  destruct (jobs_get (jobs q) job_id) as [job|] eqn:H; [|reflexivity].
  rewrite jobs_db_request. simpl.
  apply jobs_get_set_other.
  rewrite id_apply_status. now rewrite (jobs_get_id _ _ _ H).
Qed.

Lemma fields_apply_status job now st e r :
  type (apply_status job now st e r) = type job
  /\ payload (apply_status job now st e r) = payload job
  /\ attempts (apply_status job now st e r) = attempts job
  /\ max_retries (apply_status job now st e r) = max_retries job.
Proof.
  unfold apply_status.
  repeat match goal with |- context [if ?b then _ else _] => destruct b end;
    simpl; auto.
Qed.

Lemma process_job_same q job a :
  jobs_get (jobs q) (id job) = Some job ->
  jobs_get (jobs (snd (process_job q job a))) (id job) = Some (executed job a).
Proof.
  intros H. unfold process_job, executed. cbv zeta.
  set (j1 := set_attempts job (attempts job + 1)).
  assert (Hid1 : id j1 = id job) by reflexivity.
  rewrite Hid1, H.
  assert (H1 : jobs_get (jobs (with_jobs q (jobs_set (jobs q) j1))) (id j1) = Some j1)
    by exact (jobs_get_set_same (jobs q) j1).
  pose proof (update_job_status_same _ (t_start a) _ PROCESSING None None H1) as H2.
  rewrite Hid1 in H2.
  set (q2 := update_job_status _ (t_start a) (id job) PROCESSING None None) in *.
  set (j2 := apply_status j1 (t_start a) PROCESSING None None) in *.
  assert (Hid2 : id j2 = id job)
    by (unfold j2; rewrite id_apply_status; reflexivity).
  destruct (fields_apply_status j1 (t_start a) PROCESSING None None)
    as (Ht & Hp & Ha & Hm).
  fold j2 in Ht, Hp, Ha, Hm.
  rewrite Ht, Hp, Ha, Hm.
  rewrite <- Hid2 in H2 |- *.
  destruct (run_handler (world a) (type j1) (payload j1)) as [res|msg];
    [|destruct (attempts j1 <? max_retries j1)]; cbn [snd].
  - now apply update_job_status_same.
  - pose proof (update_job_status_same _ (t_end a) _ RETRYING (Some msg) None H2) as H3.
    rewrite <- (id_apply_status j2 (t_end a) RETRYING (Some msg) None) in H3 |- *.
    now apply update_job_status_same.
  - now apply update_job_status_same.
Qed.

(** Whatever [process_job] does to one job, the others stay as they were. *)
Lemma process_job_other q job a k :
  k <> id job ->
  jobs_get (jobs (snd (process_job q job a))) k = jobs_get (jobs q) k.
Proof.
  intros Hk. unfold process_job. cbv zeta.
  set (j1 := set_attempts job (attempts job + 1)).
  assert (Hid1 : id j1 = id job) by reflexivity. rewrite Hid1.
  assert (H0 : jobs_get (jobs (match jobs_get (jobs q) (id job) with
                               | Some _ => with_jobs q (jobs_set (jobs q) j1)
                               | None => q
                               end)) k = jobs_get (jobs q) k).
  { destruct (jobs_get (jobs q) (id job)); [|reflexivity].
    simpl. now apply jobs_get_set_other. }
  destruct (run_handler (world a) (type j1) (payload j1)) as [res|msg];
    [|destruct (attempts j1 <? max_retries j1)]; cbn [snd];
    rewrite !update_job_status_other by assumption; exact H0.
Qed.

(** *** The order of selection *)

Lemma key_lt_trans (a b c : Z * string) :
  key_lt a b = true -> key_lt b c = true -> key_lt a c = true.
Proof.
  destruct a as [x s], b as [y t], c as [z u]. unfold key_lt. simpl.
  rewrite !orb_true_iff, !andb_true_iff, !Z.ltb_lt, !Z.eqb_eq.
  intros [H1|[H1 H1']] [H2|[H2 H2']]; try (left; lia).
  right. split; [lia|]. eapply StrOrder.ltb_trans; eassumption.
Qed.

Lemma str_ltb_negtrans (s t u : string) :
  String.ltb s t = false -> String.ltb t u = false -> String.ltb s u = false.
Proof.
  intros H1 H2.
  destruct (StrOrder.ltb_trichotomy s t) as [H|[H|H]]; [congruence|subst; assumption|].
  destruct (StrOrder.ltb_trichotomy t u) as [H'|[H'|H']]; [congruence|subst; assumption|].
  apply StrOrder.ltb_asym. eapply StrOrder.ltb_trans; eassumption.
Qed.

Lemma key_lt_negtrans (a b c : Z * string) :
  key_lt a b = false -> key_lt b c = false -> key_lt a c = false.
Proof.
  destruct a as [x s], b as [y t], c as [z u]. unfold key_lt. simpl.
  rewrite !orb_false_iff, !andb_false_iff, !Z.ltb_ge, !Z.eqb_neq.
  intros [H1 H1'] [H2 H2']. split; [lia|].
  destruct (Z.eq_dec x z) as [E|]; [right|left; assumption].
  assert (x = y /\ y = z) as [Exy Eyz] by lia.
  destruct H1' as [?|H1']; [contradiction|].
  destruct H2' as [?|H2']; [contradiction|].
  eapply str_ltb_negtrans; eassumption.
Qed.

(** [key_lt] spelled out: rank first, then [created_at]. *)
Lemma job_lt_false (a b : Job) :
  job_lt a b = false ->
  priority_order (priority b) <= priority_order (priority a)
  /\ (priority_order (priority a) = priority_order (priority b) ->
      String.leb (created_at b) (created_at a) = true).
Proof.
  unfold job_lt, key_lt, sort_key. simpl.
  rewrite orb_false_iff, andb_false_iff, Z.ltb_ge, Z.eqb_neq.
  intros [H1 H2]. split; [assumption|].
  intros E. destruct H2 as [?|H2]; [contradiction|].
  now apply StrOrder.ltb_leb.
Qed.

Lemma sorted_nil (l : list Job) : sorted l = [] -> l = [].
Proof.
  destruct l as [|x r]; [reflexivity|]. simpl.
  destruct (sorted r) as [|y t]; simpl; [discriminate|].
  destruct (job_lt y x); discriminate.
Qed.

(** The head of [sorted l] is the first element of [l] under which no
    element of [l] sorts: everything before it in [l] sorts strictly
    above it, nothing after it sorts below it. *)
Lemma sorted_head (l : list Job) :
  forall x r, sorted l = x :: r ->
    exists l1 l2, l = l1 ++ x :: l2
      /\ (forall y, In y l1 -> job_lt x y = true)
      /\ (forall y, In y l2 -> job_lt y x = false).
Proof.
  induction l as [|a l IH]; intros x r; simpl; [discriminate|].
  destruct (sorted l) as [|h t] eqn:Hs; simpl.
  - intros [= <- <-]. apply sorted_nil in Hs. subst.
    exists [], []. repeat split; intros y [].
  - destruct (IH h t eq_refl) as (l1 & l2 & -> & Hl1 & Hl2).
    destruct (job_lt h a) eqn:Hha.
    + intros [= <- <-]. exists (a :: l1), l2. repeat split; [|assumption].
      intros y [<-|Hy]; auto.
    + intros [= <- <-]. exists [], (l1 ++ h :: l2). repeat split; [intros y []|].
      intros y Hy. apply in_app_or in Hy. destruct Hy as [Hy|[<-|Hy]].
      * destruct (job_lt y a) eqn:Hya; [|reflexivity].
        unfold job_lt in *. now rewrite (key_lt_trans _ _ _ (Hl1 y Hy) Hya) in Hha.
      * assumption.
      * unfold job_lt in *. eapply key_lt_negtrans; eauto.
Qed.

Lemma get_next_job_head (q : JobQueue) :
  fst (get_next_job q)
  = match sorted (filter is_pending (jobs q)) with
    | j :: _ => Some j
    | [] => None
    end.
Proof.
  unfold get_next_job. now destruct (filter is_pending (jobs q)).
Qed.

Lemma filter_split {A : Type} (f : A -> bool) (l : list A) :
  forall p1 x p2, filter f l = p1 ++ x :: p2 ->
    exists l1 l2, l = l1 ++ x :: l2 /\ filter f l1 = p1 /\ filter f l2 = p2.
Proof.
  induction l as [|a l IH]; intros p1 x p2; simpl.
  - destruct p1; discriminate.
  - destruct (f a) eqn:Fa.
    + destruct p1 as [|b p1]; simpl.
      * intros [= -> <-]. exists [], l. simpl. auto.
      * intros [= -> H]. destruct (IH _ _ _ H) as (l1 & l2 & -> & <- & <-).
        exists (b :: l1), l2. simpl. now rewrite Fa.
    + intros H. destruct (IH _ _ _ H) as (l1 & l2 & -> & <- & <-).
      exists (a :: l1), l2. simpl. now rewrite Fa.
Qed.

Lemma is_pending_true (j : Job) : is_pending j = true <-> status j = PENDING.
Proof. apply status_eqb_eq. Qed.

(** What [get_next_job] returns, in full: the first job of the dict, in
    insertion order, that is pending and under which no pending job
    sorts. *)
Lemma get_next_job_first_minimal (q : JobQueue) (j : Job) :
  fst (get_next_job q) = Some j ->
  status j = PENDING
  /\ exists l1 l2, jobs q = l1 ++ j :: l2
       /\ (forall y, In y l1 -> status y = PENDING -> job_lt j y = true)
       /\ (forall y, In y l2 -> status y = PENDING -> job_lt y j = false).
Proof.
  rewrite get_next_job_head.
  destruct (sorted (filter is_pending (jobs q))) as [|x r] eqn:Hs; [discriminate|].
  intros [= ->].
  destruct (sorted_head _ _ _ Hs) as (p1 & p2 & Hp & H1 & H2).
  assert (Hj : status j = PENDING).
  { apply is_pending_true.
    assert (Hin : In j (filter is_pending (jobs q)))
      by (rewrite Hp; apply in_or_app; right; now left).
    now apply filter_In in Hin. }
  split; [assumption|].
  destruct (filter_split _ _ _ _ _ Hp) as (l1 & l2 & Hl & <- & <-).
  exists l1, l2. split; [assumption|]. split; intros y Hy Hst.
  - apply H1, filter_In. split; [assumption|]. now apply is_pending_true.
  - apply H2, filter_In. split; [assumption|]. now apply is_pending_true.
Qed.

Lemma job_lt_irrefl (j : Job) : job_lt j j = false.
Proof.
  unfold job_lt, key_lt. rewrite Z.ltb_irrefl, StrOrder.ltb_irrefl.
  now rewrite andb_false_r.
Qed.

Lemma job_lt_asym (a b : Job) : job_lt a b = true -> job_lt b a = false.
Proof.
  intros H. destruct (job_lt b a) eqn:H'; [|reflexivity].
  unfold job_lt in *. pose proof (key_lt_trans _ _ _ H H') as C.
  fold (job_lt a a) in C. now rewrite job_lt_irrefl in C.
Qed.

Lemma get_next_job_minimal (q : JobQueue) (j : Job) :
  fst (get_next_job q) = Some j ->
  In j (jobs q) /\ status j = PENDING
  /\ forall j', In j' (jobs q) -> status j' = PENDING -> job_lt j' j = false.
Proof.
  intros H. destruct (get_next_job_first_minimal q j H)
    as (Hst & l1 & l2 & Hl & H1 & H2).
  split; [rewrite Hl; apply in_or_app; right; now left|].
  split; [assumption|].
  intros j' Hin Hst'. rewrite Hl in Hin.
  apply in_app_or in Hin. destruct Hin as [Hin|[<-|Hin]].
  - apply job_lt_asym. now apply H1.
  - apply job_lt_irrefl.
  - now apply H2.
Qed.

Lemma get_next_job_none (q : JobQueue) :
  fst (get_next_job q) = None <-> (forall j, In j (jobs q) -> status j <> PENDING).
Proof.
  rewrite get_next_job_head. split.
  - destruct (sorted (filter is_pending (jobs q))) eqn:Hs; [|discriminate].
    intros _ j Hin Hst. apply sorted_nil in Hs.
    assert (Hf : In j (filter is_pending (jobs q)))
      by (apply filter_In; split; [assumption|now apply is_pending_true]).
    now rewrite Hs in Hf.
  - intros H. destruct (sorted (filter is_pending (jobs q))) as [|x r] eqn:Hs;
      [reflexivity|].
    destruct (sorted_head _ _ _ Hs) as (p1 & p2 & Hp & _).
    assert (Hin : In x (filter is_pending (jobs q)))
      by (rewrite Hp; apply in_or_app; right; now left).
    apply filter_In in Hin. destruct Hin as [Hin Hx].
    apply is_pending_true in Hx. now destruct (H x Hin).
Qed.

(** *** Fields after a status update *)

Lemma status_apply_status job now st e r : status (apply_status job now st e r) = st.
Proof.
  unfold apply_status.
  repeat match goal with |- context [if ?b then _ else _] => destruct b end;
    reflexivity.
Qed.

Lemma error_message_apply_status job now st e r :
  error_message (apply_status job now st e r)
  = if truthy_str e then e else error_message job.
Proof.
  unfold apply_status.
  repeat match goal with |- context [if ?b then _ else _] => destruct b end;
    reflexivity.
Qed.

Lemma result_apply_status job now st e r :
  result (apply_status job now st e r)
  = if truthy_dict r then r else result job.
Proof.
  unfold apply_status.
  repeat match goal with |- context [if ?b then _ else _] => destruct b end;
    reflexivity.
Qed.

(** No handler returns an empty dict. *)
Lemma run_handler_returns_nonempty w ty p res :
  run_handler w ty p = Returned res -> truthy_dict (Some res) = true.
Proof.
  unfold run_handler, _process_invoice_job, _process_email_ingestion_job,
    _process_report_job, _process_export_job.
  repeat match goal with
         | |- context [if ?b then _ else _] => destruct b
         | |- context [match ?x with _ => _ end] => destruct x
         end; intros [= <-]; reflexivity.
Qed.

Lemma executed_returned job a res :
  run_handler (world a) (type job) (payload job) = Returned res ->
  status (executed job a) = COMPLETED
  /\ result (executed job a) = Some res
  /\ error_message (executed job a) = error_message job
  /\ attempts (executed job a) = attempts job + 1.
Proof.
  intros H. unfold executed. cbv zeta.
  set (j1 := set_attempts job (attempts job + 1)).
  destruct (fields_apply_status j1 (t_start a) PROCESSING None None)
    as (Ht & Hp & Ha & Hm).
  rewrite Ht, Hp. change (type j1) with (type job).
  change (payload j1) with (payload job). rewrite H.
  rewrite status_apply_status, result_apply_status, error_message_apply_status.
  rewrite (run_handler_returns_nonempty _ _ _ _ H). simpl truthy_str. cbv iota.
  rewrite error_message_apply_status. simpl truthy_str. cbv iota.
  destruct (fields_apply_status (apply_status j1 (t_start a) PROCESSING None None)
              (t_end a) COMPLETED None (Some res)) as (_ & _ & Ha' & _).
  rewrite Ha', Ha. auto.
Qed.

Lemma executed_raised job a e :
  run_handler (world a) (type job) (payload job) = Raised e ->
  status (executed job a)
  = (if attempts job + 1 <? max_retries job then PENDING else FAILED)
  /\ attempts (executed job a) = attempts job + 1
  /\ max_retries (executed job a) = max_retries job
  /\ type (executed job a) = type job
  /\ payload (executed job a) = payload job
  /\ id (executed job a) = id job
  /\ result (executed job a) = result job
  /\ error_message (executed job a)
     = (if truthy_str (Some e) then Some e else error_message job).
Proof.
  intros H. unfold executed. cbv zeta.
  set (j1 := set_attempts job (attempts job + 1)).
  destruct (fields_apply_status j1 (t_start a) PROCESSING None None)
    as (Ht & Hp & Ha & Hm).
  rewrite Ht, Hp, Ha, Hm. change (type j1) with (type job).
  change (payload j1) with (payload job). rewrite H.
  change (attempts j1) with (attempts job + 1).
  change (max_retries j1) with (max_retries job).
  destruct (attempts job + 1 <? max_retries job);
    rewrite ?status_apply_status, ?id_apply_status, ?result_apply_status,
      ?error_message_apply_status;
    repeat match goal with
           | |- context [attempts (apply_status ?j ?n ?s ?x ?r)] =>
             let F := fresh in
             destruct (fields_apply_status j n s x r) as (? & ? & F & ?); rewrite F; clear F
           | |- context [max_retries (apply_status ?j ?n ?s ?x ?r)] =>
             let F := fresh in
             destruct (fields_apply_status j n s x r) as (? & ? & ? & F); rewrite F; clear F
           | |- context [type (apply_status ?j ?n ?s ?x ?r)] =>
             let F := fresh in
             destruct (fields_apply_status j n s x r) as (F & ? & ? & ?); rewrite F; clear F
           | |- context [payload (apply_status ?j ?n ?s ?x ?r)] =>
             let F := fresh in
             destruct (fields_apply_status j n s x r) as (? & F & ? & ?); rewrite F; clear F
           end;
    simpl truthy_dict; simpl (truthy_str None); cbv iota;
    rewrite ?error_message_apply_status, ?result_apply_status;
    simpl truthy_dict; simpl (truthy_str None); cbv iota;
    repeat split; try reflexivity;
    destruct (truthy_str (Some e)); reflexivity.
Qed.

(** *** Identifiers stay unique *)

Lemma In_jobs_set (js : list Job) (job j : Job) :
  In j (jobs_set js job) -> j = job \/ In j js.
Proof.
  induction js as [|x r IH]; simpl.
  - intros [<-|[]]. now left.
  - destruct (String.eqb (id x) (id job)); simpl.
    + intros [<-|H]; auto.
    + intros [<-|H]; auto. destruct (IH H); auto.
Qed.

Lemma jobs_get_None (js : list Job) (k : string) :
  jobs_get js k = None -> ~ In k (map id js).
Proof.
  unfold jobs_get. intros H Hin. apply in_map_iff in Hin.
  destruct Hin as (j & <- & Hj).
  pose proof (find_none _ _ H j Hj) as F. simpl in F.
  now rewrite String.eqb_refl in F.
Qed.

Lemma jobs_set_absent (js : list Job) (job : Job) :
  jobs_get js (id job) = None -> jobs_set js job = js ++ [job].
Proof.
  unfold jobs_get. induction js as [|x r IH]; simpl; [reflexivity|].
  destruct (String.eqb (id x) (id job)); [discriminate|].
  intros H. now rewrite IH.
Qed.

Lemma ids_jobs_set_present (js : list Job) (job x : Job) :
  jobs_get js (id job) = Some x -> map id (jobs_set js job) = map id js.
Proof.
  unfold jobs_get. induction js as [|y r IH]; simpl; [discriminate|].
  destruct (String.eqb (id y) (id job)) eqn:E; simpl.
  - intros _. apply String.eqb_eq in E. now rewrite E.
  - intros H. now rewrite IH.
Qed.

Lemma NoDup_jobs_set (js : list Job) (job : Job) :
  NoDup (map id js) -> NoDup (map id (jobs_set js job)).
Proof.
  intros H. destruct (jobs_get js (id job)) as [x|] eqn:G.
  - now rewrite (ids_jobs_set_present _ _ _ G).
  - rewrite (jobs_set_absent _ _ G), map_app. simpl.
    apply NoDup_app; [assumption|repeat constructor; intros []|].
    intros k Hk [<-|[]]. now apply (jobs_get_None _ _ G).
Qed.

(** With unique identifiers a job of the dict is the one found under its
    id. *)
Lemma jobs_get_unique (js : list Job) (j : Job) :
  NoDup (map id js) -> In j js -> jobs_get js (id j) = Some j.
Proof.
  unfold jobs_get. induction js as [|x r IH]; simpl; [intros _ []|].
  intros H Hin. inversion H as [|? ? Hx Hr]; subst.
  destruct Hin as [->|Hin]; [now rewrite String.eqb_refl|].
  destruct (String.eqb (id x) (id j)) eqn:E; [|now apply IH].
  apply String.eqb_eq in E. destruct Hx. rewrite E. now apply in_map.
Qed.

Lemma ids_update_job_status q now job_id st e r :
  map id (jobs (update_job_status q now job_id st e r)) = map id (jobs q).
Proof.
  unfold update_job_status.
  destruct (jobs_get (jobs q) job_id) as [job|] eqn:G; [|reflexivity].
  rewrite jobs_db_request. simpl.
  apply (ids_jobs_set_present _ _ job).
  now rewrite id_apply_status, (jobs_get_id _ _ _ G).
Qed.

Lemma ids_process_job q job a :
  map id (jobs (snd (process_job q job a))) = map id (jobs q).
Proof.
  unfold process_job. cbv zeta.
  set (j1 := set_attempts job (attempts job + 1)).
  assert (H0 : map id (jobs (match jobs_get (jobs q) (id j1) with
                             | Some _ => with_jobs q (jobs_set (jobs q) j1)
                             | None => q
                             end)) = map id (jobs q)).
  { destruct (jobs_get (jobs q) (id j1)) eqn:G; [|reflexivity].
    simpl. now apply (ids_jobs_set_present _ _ _ G). }
  destruct (run_handler (world a) (type j1) (payload j1)) as [res|msg];
    [|destruct (attempts j1 <? max_retries j1)]; cbn [snd];
    rewrite !ids_update_job_status; exact H0.
Qed.

Lemma reachable_ids_unique (q : JobQueue) :
  reachable q -> NoDup (map id (jobs q)).
Proof.
  induction 1 as [s|q job_id now ty p pr mr _ IH|q a _ IH].
  - constructor.
  - unfold add_job. cbv zeta. cbn [snd]. rewrite jobs_db_request. simpl.
    now apply NoDup_jobs_set.
  - unfold worker_iteration. destruct (fst (get_next_job q)); [|assumption].
    now rewrite ids_process_job.
Qed.

(** A job is [COMPLETED] after [process_job] only through the branch that
    stores the handler's dict. *)
Lemma executed_completed job a :
  status (executed job a) = COMPLETED ->
  truthy_dict (result (executed job a)) = true.
Proof.
  destruct (run_handler (world a) (type job) (payload job)) as [res|e] eqn:H.
  - destruct (executed_returned _ _ _ H) as (_ & -> & _).
    intros _. now apply (run_handler_returns_nonempty _ _ _ _ H).
  - destruct (executed_raised _ _ _ H) as (-> & _).
    destruct (attempts job + 1 <? max_retries job); discriminate.
Qed.

Lemma reachable_completed_result (q : JobQueue) :
  reachable q ->
  forall j, In j (jobs q) -> status j = COMPLETED -> truthy_dict (result j) = true.
Proof.
  induction 1 as [s|q job_id now ty p pr mr Hq IH|q a Hq IH]; intros j Hin Hst.
  - destruct Hin.
  - unfold add_job in Hin. cbv zeta in Hin. cbn [snd] in Hin.
    rewrite jobs_db_request in Hin. simpl in Hin.
    apply In_jobs_set in Hin. destruct Hin as [->|Hin]; [discriminate|].
    now apply IH.
  - pose proof (reachable_ids_unique _ (reach_worker q a Hq)) as U.
    pose proof (jobs_get_unique _ _ U Hin) as G.
    unfold worker_iteration in *.
    destruct (fst (get_next_job q)) as [job|] eqn:Hn; [|now apply IH].
    destruct (get_next_job_minimal _ _ Hn) as (Hjob & _).
    pose proof (jobs_get_unique _ _ (reachable_ids_unique _ Hq) Hjob) as Gjob.
    destruct (String.eqb (id j) (id job)) eqn:E.
    + apply String.eqb_eq in E. rewrite E in G.
      rewrite (process_job_same _ _ a Gjob) in G. injection G as <-.
      now apply executed_completed.
    + apply String.eqb_neq in E. rewrite (process_job_other _ _ a _ E) in G.
      apply IH; [|assumption]. now apply jobs_get_In in G.
Qed.

(** *** Retries *)

Lemma execute_attempts_failing (turns : list Attempt) :
  forall (q : JobQueue) (job : Job),
    jobs_get (jobs q) (id job) = Some job ->
    0 <= attempts job ->
    status job
    = (if attempts job <? Z.max 1 (max_retries job) then PENDING else FAILED) ->
    (forall a, In a turns ->
       exists e, run_handler (world a) (type job) (payload job) = Raised e) ->
    attempts job + Z.of_nat (List.length turns) <= Z.max 1 (max_retries job) ->
    exists job',
      jobs_get (jobs (execute_attempts q (id job) turns)) (id job) = Some job'
      /\ attempts job' = attempts job + Z.of_nat (List.length turns)
      /\ max_retries job' = max_retries job
      /\ status job'
         = (if attempts job' <? Z.max 1 (max_retries job) then PENDING else FAILED).
Proof.
  induction turns as [|a turns IH]; intros q job Hget Hpos Hst Hfail Hlen.
  - exists job. simpl. rewrite Z.add_0_r. auto.
  - cbn [execute_attempts]. rewrite Hget.
    destruct (Hfail a (or_introl eq_refl)) as [e He].
    destruct (executed_raised _ _ _ He) as (Es & Ea & Em & Et & Ep & Ei & _).
    pose proof (process_job_same q job a Hget) as Hget'.
    rewrite <- Ei in Hget' |- *.
    cbn [List.length] in Hlen. rewrite Nat2Z.inj_succ in Hlen.
    destruct (IH (snd (process_job q job a)) (executed job a)) as (job' & G & A & M & S).
    + exact Hget'.
    + lia.
    + rewrite Es, Ea, Em.
      destruct (Z.ltb_spec (attempts job + 1) (max_retries job));
        destruct (Z.ltb_spec (attempts job + 1) (Z.max 1 (max_retries job)));
        try reflexivity; lia.
    + intros a' Ha'. rewrite Et, Ep. apply Hfail. now right.
    + rewrite Ea, Em. lia.
    + exists job'. rewrite Em in *. rewrite Ea in A.
      cbn [List.length]. rewrite Nat2Z.inj_succ.
      repeat split; try assumption. lia.
Qed.

(** C1 (amended).  A job admitted with [max_retries = N] whose handler
    raises on every execution is [PENDING] again after each of its first
    executions and [FAILED] after execution number [max N 1]: [N] executions
    for [N >= 1], one for [N <= 0].  At [FAILED] its [attempts] counter is
    that number, which for [N >= 0] is at most [N + 1]. *)
Theorem always_failing_job_fails_after_max_retries_attempts
    (q : JobQueue) (job : Job) (turns : list Attempt) :
  jobs_get (jobs q) (id job) = Some job ->
  status job = PENDING ->
  attempts job = 0 ->
  (forall a, In a turns ->
     exists e, run_handler (world a) (type job) (payload job) = Raised e) ->
  Z.of_nat (List.length turns) <= Z.max 1 (max_retries job) ->
  exists job',
    jobs_get (jobs (execute_attempts q (id job) turns)) (id job) = Some job'
    /\ attempts job' = Z.of_nat (List.length turns)
    /\ status job'
       = (if Z.of_nat (List.length turns) <? Z.max 1 (max_retries job)
          then PENDING else FAILED)
    /\ (status job' = FAILED -> attempts job' = Z.max 1 (max_retries job))
    /\ (0 <= max_retries job -> attempts job' <= max_retries job + 1).
Proof.
  intros Hget Hst Hatt Hfail Hlen.
  destruct (execute_attempts_failing turns q job) as (job' & G & A & M & S);
    try assumption.
  - lia.
  - rewrite Hst, Hatt. now destruct (Z.ltb_spec 0 (Z.max 1 (max_retries job))); [|lia].
  - lia.
  - exists job'. rewrite Hatt in A. simpl in A. rewrite A in S.
    repeat split; try assumption.
    + rewrite S. destruct (Z.ltb_spec (Z.of_nat (List.length turns)) (Z.max 1 (max_retries job)));
        [discriminate|]. intros _. lia.
    + lia.
Qed.

Lemma always_failing_job_witness :
  exists job',
    jobs_get (jobs (execute_attempts (unknown_queue 2) "job-1"
                      [no_collaborators; no_collaborators])) "job-1" = Some job'
    /\ attempts job' = 2
    /\ status job' = FAILED
    /\ (status job' = FAILED -> attempts job' = 2)
    /\ (0 <= 2 -> attempts job' <= 3).
Proof.
  apply (always_failing_job_fails_after_max_retries_attempts
           (unknown_queue 2) (unknown_job 2) [no_collaborators; no_collaborators]).
  - reflexivity.
  - reflexivity.
  - reflexivity.
  - intros a _. eexists. reflexivity.
  - simpl. lia.
Defined.

(** C1 as stated fails: with [max_retries = 2] a job whose handler always
    raises is [FAILED] after its second execution, [attempts] being 2 and
    not 3. *)
Lemma failed_after_two_attempts_with_two_retries :
  exists job',
    jobs_get (jobs (execute_attempts (unknown_queue 2) "job-1"
                      [no_collaborators; no_collaborators])) "job-1" = Some job'
    /\ max_retries job' = 2
    /\ status job' = FAILED
    /\ attempts job' = 2
    /\ attempts job' <> max_retries job' + 1.
Proof.
  exists (mkJob "job-1" "no_such_type" [] FAILED NORMAL 2 2
                (Some "Unknown job type: no_such_type") None
                "2024-01-01T00:00:00" (Some "2024-01-01T00:00:01")
                (Some "2024-01-01T00:00:02")).
  vm_compute. repeat split. discriminate.
Qed.

(** *** Selection *)

(** C2.  [get_next_job] returns nothing exactly when no job is pending.
    The job it returns is a pending job of the queue whose priority rank
    (CRITICAL 0, HIGH 1, NORMAL 2, LOW 3) is the least among the pending
    jobs and whose [created_at] is the least among the pending jobs of that
    priority.  So of two pending jobs of different priority the lower one
    is not returned, whatever the order of submission, and of two pending
    jobs of one priority the one created later is not returned.  Between
    pending jobs equal in priority and [created_at] the order of insertion
    decides: every pending job inserted before the returned one sorts
    strictly after it. *)
Theorem get_next_job_priority_then_age (q : JobQueue) :
  (priority_order CRITICAL < priority_order HIGH
   /\ priority_order HIGH < priority_order NORMAL
   /\ priority_order NORMAL < priority_order LOW)
  /\ (fst (get_next_job q) = None
      <-> forall j, In j (jobs q) -> status j <> PENDING)
  /\ (forall j, fst (get_next_job q) = Some j ->
        In j (jobs q) /\ status j = PENDING
        /\ forall j', In j' (jobs q) -> status j' = PENDING ->
             priority_order (priority j) <= priority_order (priority j')
             /\ (priority j' = priority j ->
                 String.leb (created_at j) (created_at j') = true))
  /\ (forall j, fst (get_next_job q) = Some j ->
        exists earlier later,
          jobs q = earlier ++ j :: later
          /\ forall j', In j' earlier -> status j' = PENDING -> job_lt j j' = true)
  /\ (forall j1 j2,
        In j1 (jobs q) -> In j2 (jobs q) ->
        status j1 = PENDING -> status j2 = PENDING ->
        priority_order (priority j1) < priority_order (priority j2)
        \/ (priority j1 = priority j2
            /\ String.ltb (created_at j1) (created_at j2) = true) ->
        exists j, fst (get_next_job q) = Some j /\ j <> j2).
Proof.
  split; [simpl; lia|].
  split; [apply get_next_job_none|].
  split.
  - intros j H. destruct (get_next_job_minimal q j H) as (Hin & Hst & Hmin).
    repeat split; try assumption.
    + now apply (job_lt_false j' j), Hmin.
    + intros E. apply (job_lt_false j' j); [now apply Hmin|now rewrite E].
  - split.
    { intros j H. destruct (get_next_job_first_minimal q j H)
        as (_ & l1 & l2 & Hl & H1 & _).
      exists l1, l2. auto. }
    intros j1 j2 Hin1 Hin2 Hst1 Hst2 Hlt.
    destruct (fst (get_next_job q)) as [j|] eqn:H.
    + exists j. split; [reflexivity|]. intros ->.
      destruct (get_next_job_minimal q j2 H) as (_ & _ & Hmin).
      pose proof (Hmin j1 Hin1 Hst1) as F.
      unfold job_lt, key_lt, sort_key in F. simpl in F.
      apply orb_false_iff in F. destruct F as [F1 F2].
      apply Z.ltb_ge in F1.
      destruct Hlt as [Hlt|[E Hlt]]; [lia|].
      now rewrite E, Z.eqb_refl, Hlt in F2.
    + pose proof (proj1 (get_next_job_none q) H) as N.
      now destruct (N j1 Hin1).
Qed.

Lemma get_next_job_priority_witness :
  exists j, fst (get_next_job high_then_critical) = Some j /\ j <> job_high.
Proof.
  apply (proj2 (proj2 (proj2 (proj2
                 (get_next_job_priority_then_age high_then_critical))))
           job_critical job_high).
  - simpl. auto.
  - simpl. auto.
  - reflexivity.
  - reflexivity.
  - left. simpl. lia.
Defined.

(** C10.  [get_next_job] leaves the queue as it found it: the same jobs
    with the same fields, the same requests sent to the database, the same
    [running] flag.  The job it returns is a job of that unchanged queue and
    is still [PENDING], so asking again returns the same job. *)
Theorem get_next_job_mutates_nothing (q : JobQueue) :
  snd (get_next_job q) = q
  /\ (forall j, fst (get_next_job q) = Some j ->
        In j (jobs (snd (get_next_job q))) /\ status j = PENDING)
  /\ fst (get_next_job (snd (get_next_job q))) = fst (get_next_job q).
Proof.
  assert (H : snd (get_next_job q) = q).
  { unfold get_next_job. now destruct (filter is_pending (jobs q)). }
  rewrite H. repeat split.
  - now destruct (get_next_job_minimal q j) as (Hin & _).
  - now destruct (get_next_job_minimal q j) as (_ & Hst & _).
Qed.

Lemma get_next_job_mutates_nothing_witness :
  In job_critical (jobs (snd (get_next_job high_then_critical)))
  /\ status job_critical = PENDING.
Proof.
  apply (proj1 (proj2 (get_next_job_mutates_nothing high_then_critical))).
  reflexivity.
Defined.

(** *** Admission *)

(** C3 (amended).  [add_job] has no failure: for every job type, with a
    handler or without, it returns the new identifier and stores under it a
    [PENDING] job with no attempt made, after the jobs already there.  A
    type without a handler is met only when the job is executed:
    [process_job] returns [False], the message "Unknown job type: ..." is
    recorded on the job, and the job is retried or failed like any other
    failing job. *)
Theorem add_job_admits_every_type
    (q : JobQueue) (job_id now job_type : string) (data : dict)
    (prio : JobPriority) (retries : Z) :
  jobs_get (jobs q) job_id = None ->
  let job := mkJob job_id job_type data PENDING prio 0 retries
                   None None now None None in
  let q' := snd (add_job q job_id now job_type data prio retries) in
  fst (add_job q job_id now job_type data prio retries) = job_id
  /\ jobs q' = jobs q ++ [job]
  /\ jobs_get (jobs q') job_id = Some job
  /\ (registered job_type = false ->
      forall a, fst (process_job q' job a) = false
        /\ exists job',
             jobs_get (jobs (snd (process_job q' job a))) job_id = Some job'
             /\ attempts job' = 1
             /\ error_message job' = Some ("Unknown job type: " ++ job_type)%string
             /\ status job' = (if 1 <? retries then PENDING else FAILED)).
Proof.
  intros Hfresh job q'.
  assert (Hjobs : jobs q' = jobs q ++ [job]).
  { unfold q', add_job. cbv zeta. cbn [snd]. rewrite jobs_db_request. simpl.
    now apply (jobs_set_absent (jobs q) job). }
  assert (Hget : jobs_get (jobs q') (id job) = Some job).
  { unfold q', add_job. cbv zeta. cbn [snd]. rewrite jobs_db_request. simpl.
    apply (jobs_get_set_same (jobs q) job). }
  repeat split; try assumption.
  - assert (Hraise : run_handler (world a) (type job) (payload job)
                     = Raised ("Unknown job type: " ++ job_type)%string).
    { unfold registered in H. unfold run_handler. simpl type.
      repeat (apply orb_false_iff in H; destruct H as [H ?]).
      now repeat match goal with E : String.eqb _ _ = false |- _ => rewrite E; clear E end. }
    unfold process_job. cbv zeta.
    change (type (set_attempts job (attempts job + 1))) with (type job).
    change (payload (set_attempts job (attempts job + 1))) with (payload job).
    rewrite Hraise. now destruct (_ <? _).
  - assert (Hraise : run_handler (world a) (type job) (payload job)
                     = Raised ("Unknown job type: " ++ job_type)%string).
    { unfold registered in H. unfold run_handler. simpl type.
      repeat (apply orb_false_iff in H; destruct H as [H ?]).
      now repeat match goal with E : String.eqb _ _ = false |- _ => rewrite E; clear E end. }
    exists (executed job a). split; [exact (process_job_same q' job a Hget)|].
    destruct (executed_raised _ _ _ Hraise) as (Es & Ea & _ & _ & _ & _ & _ & Ee).
    rewrite Es, Ea, Ee. auto.
Qed.

Lemma add_job_admits_every_type_witness :
  fst (add_job (init None) "job-1" "2024-01-01T00:00:00" "no_such_type" [] NORMAL 2)
  = "job-1"
  /\ jobs (unknown_queue 2) = [] ++ [unknown_job 2]
  /\ jobs_get (jobs (unknown_queue 2)) "job-1" = Some (unknown_job 2)
  /\ (registered "no_such_type" = false ->
      forall a, fst (process_job (unknown_queue 2) (unknown_job 2) a) = false
        /\ exists job',
             jobs_get (jobs (snd (process_job (unknown_queue 2) (unknown_job 2) a)))
                      "job-1" = Some job'
             /\ attempts job' = 1
             /\ error_message job' = Some "Unknown job type: no_such_type"
             /\ status job' = PENDING).
Proof.
  apply (add_job_admits_every_type (init None) "job-1" "2024-01-01T00:00:00"
           "no_such_type" [] NORMAL 2).
  reflexivity.
Defined.

(** C3 as stated fails: a job of a type without a handler is admitted;
    [add_job] returns its identifier and the job sits in the queue,
    [PENDING]. *)
Lemma add_job_accepts_unregistered_type :
  registered "no_such_type" = false
  /\ add_job (init None) "job-1" "2024-01-01T00:00:00" "no_such_type" [] NORMAL 3
     = ("job-1",
        mkQueue [mkJob "job-1" "no_such_type" [] PENDING NORMAL 0 3 None None
                       "2024-01-01T00:00:00" None None]
                None false).
Proof. split; reflexivity. Qed.

(** *** Completion *)

Lemma supabase_update_job_status q now job st e r log :
  supabase q = Some log ->
  jobs_get (jobs q) (id job) = Some job ->
  supabase (update_job_status q now (id job) st e r)
  = Some (DbUpdate (id job) st e (if truthy_dict r then r else None)
                   (started_at (apply_status job now st e r))
                   (completed_at (apply_status job now st e r)) :: log).
Proof.
  intros Hs Hg. unfold update_job_status. rewrite Hg.
  unfold db_request. simpl. now rewrite Hs.
Qed.

(** The requests a successful [process_job] sends to the database: the
    update to [PROCESSING], then the update to [COMPLETED], which carries
    the result and no error message. *)
Lemma process_job_completed_requests q job a res log :
  supabase q = Some log ->
  jobs_get (jobs q) (id job) = Some job ->
  run_handler (world a) (type job) (payload job) = Returned res ->
  exists t1 t2 t3 t4,
    supabase (snd (process_job q job a))
    = Some (DbUpdate (id job) COMPLETED None (Some res) t1 t2
            :: DbUpdate (id job) PROCESSING None None t3 t4 :: log).
Proof.
  intros Hs Hg Hres. unfold process_job. cbv zeta.
  set (j1 := set_attempts job (attempts job + 1)).
  assert (Hid1 : id j1 = id job) by reflexivity.
  rewrite Hid1, Hg.
  change (type j1) with (type job). change (payload j1) with (payload job).
  rewrite Hres. cbn [snd].
  assert (H1 : jobs_get (jobs (with_jobs q (jobs_set (jobs q) j1))) (id j1) = Some j1)
    by exact (jobs_get_set_same (jobs q) j1).
  assert (Hs1 : supabase (with_jobs q (jobs_set (jobs q) j1)) = Some log) by exact Hs.
  pose proof (supabase_update_job_status _ (t_start a) _ PROCESSING None None _ Hs1 H1)
    as Hs2.
  pose proof (update_job_status_same _ (t_start a) _ PROCESSING None None H1) as H2.
  rewrite Hid1 in Hs2, H2.
  set (j2 := apply_status j1 (t_start a) PROCESSING None None) in *.
  assert (Hid2 : id j2 = id job)
    by (unfold j2; rewrite id_apply_status; reflexivity).
  rewrite <- Hid2 in H2, Hs2 |- *.
  pose proof (supabase_update_job_status _ (t_end a) _ COMPLETED None (Some res) _ Hs2 H2)
    as Hs3.
  rewrite Hs3.
  rewrite (run_handler_returns_nonempty _ _ _ _ Hres).
  do 4 eexists. reflexivity.
Qed.

(** C4 (amended).  In every queue the program reaches, a [COMPLETED] job
    has a result, the non-empty dict its handler returned.  Completion
    does not touch [error_message]: when [process_job] completes a job the
    field is what it was before that execution, so a job that failed
    earlier keeps the message of its last failure, and the field is absent
    on a completed job only if no earlier execution recorded one.  Only
    the row sent to the database on completion carries no error message. *)
Theorem completed_has_result_keeps_error_message :
  (forall q, reachable q ->
     forall j, In j (jobs q) -> status j = COMPLETED ->
       exists res, result j = Some res /\ res <> [])
  /\ (forall q job a res,
        jobs_get (jobs q) (id job) = Some job ->
        run_handler (world a) (type job) (payload job) = Returned res ->
        fst (process_job q job a) = true
        /\ exists job',
             jobs_get (jobs (snd (process_job q job a))) (id job) = Some job'
             /\ status job' = COMPLETED
             /\ result job' = Some res
             /\ error_message job' = error_message job)
  /\ (forall q job a res log,
        jobs_get (jobs q) (id job) = Some job ->
        run_handler (world a) (type job) (payload job) = Returned res ->
        supabase q = Some log ->
        exists t1 t2 t3 t4,
          supabase (snd (process_job q job a))
          = Some (DbUpdate (id job) COMPLETED None (Some res) t1 t2
                  :: DbUpdate (id job) PROCESSING None None t3 t4 :: log)).
Proof.
  split; [|split]; [| |intros q job a res log Hg Hres Hs;
                       now apply process_job_completed_requests].
  - intros q Hq j Hin Hst.
    pose proof (reachable_completed_result q Hq j Hin Hst) as T.
    destruct (result j) as [[|kv res]|]; try discriminate.
    exists (kv :: res). split; [reflexivity|discriminate].
  - intros q job a res Hget Hres. split.
    + unfold process_job. cbv zeta.
      change (type (set_attempts job (attempts job + 1))) with (type job).
      change (payload (set_attempts job (attempts job + 1))) with (payload job).
      now rewrite Hres.
    + exists (executed job a). split; [now apply process_job_same|].
      destruct (executed_returned _ _ _ Hres) as (Es & Er & Ee & _). auto.
Qed.

Lemma completed_has_result_witness :
  (exists res, result (executed invoice_job_failed_once database_up) = Some res
               /\ res <> [])
  /\ (fst (process_job invoice_queue_failed_once invoice_job_failed_once database_up)
      = true
      /\ exists job',
           jobs_get (jobs (snd (process_job invoice_queue_failed_once
                                            invoice_job_failed_once database_up)))
                    (id invoice_job_failed_once) = Some job'
           /\ status job' = COMPLETED
           /\ result job' = Some [("invoice_id", VStr "inv-7");
                                  ("status", VStr "completed")]
           /\ error_message job' = error_message invoice_job_failed_once).
Proof.
  split.
  - apply (proj1 completed_has_result_keeps_error_message
             (worker_iteration invoice_queue_failed_once database_up)).
    + apply reach_worker. apply reach_worker. apply reach_add_job. apply reach_init.
    + vm_compute. left. reflexivity.
    + vm_compute. reflexivity.
  - apply (proj1 (proj2 completed_has_result_keeps_error_message)
             invoice_queue_failed_once invoice_job_failed_once database_up).
    + vm_compute. reflexivity.
    + vm_compute. reflexivity.
Defined.

(** C4 as stated fails: a job whose first execution failed and whose
    second succeeded is [COMPLETED] with the message of the failure still
    on it. *)
Lemma completed_job_keeps_earlier_error :
  exists job',
    jobs_get (jobs (start_worker invoice_queue [no_collaborators; database_up]))
             "job-7" = Some job'
    /\ status job' = COMPLETED
    /\ attempts job' = 2
    /\ error_message job' = Some "Supabase admin client not available".
Proof.
  exists (mkJob "job-7" "process_invoice" [("invoice_id", VStr "inv-7")]
                COMPLETED NORMAL 2 3 (Some "Supabase admin client not available")
                (Some [("invoice_id", VStr "inv-7"); ("status", VStr "completed")])
                "2024-01-01T00:00:00" (Some "2024-01-01T00:00:01")
                (Some "2024-01-01T00:00:04")).
  vm_compute. repeat split.
Qed.

End JobQueueProofs.

(** ** Properties of the extraction pipeline *)

Module InvoiceProcessorProofs.
Import Text InvoiceProcessorModel InvoiceScenarios.

Lemma append_assoc (a b c : string) : ((a ++ b) ++ c = a ++ (b ++ c))%string.
Proof. induction a as [|x a IH]; simpl; [reflexivity|now rewrite IH]. Qed.

Lemma len_empty_strip : len (strip EmptyString) = 0.
Proof. reflexivity. Qed.

Section Stages.

Context {image : Type} (env : Collaborators image).

(** *** The monad *)

Lemma bind_ok {A B : Type} (m : M image A) (f : A -> M image B) (a : A) t :
  m = (inr a, t) -> bind m f = (fst (f a), t ++ snd (f a)).
Proof. intros ->. reflexivity. Qed.

Lemma bind_err {A B : Type} (m : M image A) (f : A -> M image B) (e : error) t :
  m = (inl e, t) -> bind m f = (inl e, t).
Proof. intros ->. reflexivity. Qed.

Lemma snd_bind {A B : Type} (m : M image A) (f : A -> M image B) :
  snd (bind m f)
  = snd m ++ match fst m with inr a => snd (f a) | inl _ => [] end.
Proof.
  unfold bind. destruct (fst m); simpl; [now rewrite app_nil_r|reflexivity].
Qed.

Lemma snd_try_except {A : Type} (m : M image A) (h : error -> M image A) :
  snd (try_except m h)
  = snd m ++ match fst m with inl e => snd (h e) | inr _ => [] end.
Proof.
  unfold try_except. destruct (fst m); simpl; [reflexivity|now rewrite app_nil_r].
Qed.

Lemma external_call {A : Type} (ev : event image) (r : string + A) :
  external_only (call ev r).
Proof. intros e. destruct r; simpl; intros [= <-]. eauto. Qed.

Lemma external_bind {A B : Type} (m : M image A) (f : A -> M image B) :
  external_only m -> (forall a, external_only (f a)) -> external_only (bind m f).
Proof.
  intros Hm Hf e. unfold bind. destruct (fst m) as [e'|a] eqn:E; simpl.
  - intros [= <-]. now apply Hm.
  - apply Hf.
Qed.

Lemma external_ret {A : Type} (a : A) : external_only (ret (image := image) a).
Proof. intros e. discriminate. Qed.

(** *** Text acquisition *)

Lemma external_ocr_pages images acc : external_only (ocr_pages env images acc).
Proof.
  revert acc. induction images as [|page rest IH]; intros acc; simpl.
  - apply external_ret.
  - apply external_bind; [apply external_call|intros a; apply IH].
Qed.

Lemma external_pdf pdf_bytes : external_only (_extract_text_from_pdf env pdf_bytes).
Proof.
  unfold _extract_text_from_pdf.
  apply external_bind; [apply external_call|intros page_texts].
  destruct (_ && _); [apply external_ret|].
  apply external_bind; [apply external_call|intros images].
  apply external_ocr_pages.
Qed.

Lemma external_image image_bytes :
  external_only (_extract_text_from_image env image_bytes).
Proof.
  unfold _extract_text_from_image.
  apply external_bind; [apply external_call|intros img; apply external_call].
Qed.

(** The OCR loop when Tesseract reads every page: the texts, a newline
    after each, in page order. *)
Lemma ocr_pages_ok images :
  forall acc texts,
    map (image_to_string env) images = map inr texts ->
    ocr_pages env images acc
    = (inr (acc ++ lines texts)%string, map EvImageToString images).
Proof.
  induction images as [|page rest IH]; intros acc [|t texts]; simpl;
    try discriminate.
  - intros _. unfold ret. f_equal. f_equal.
    induction acc as [|c acc IHa]; simpl; [reflexivity|now rewrite <- IHa].
  - intros [= Hp Hr]. rewrite Hp. unfold bind, call. cbn [fst snd].
    rewrite (IH _ _ Hr). cbn [fst snd]. f_equal. f_equal.
    now rewrite !append_assoc.
Qed.

(** Text acquisition never runs a structuring stage. *)
Lemma no_structuring_ocr_pages images acc :
  existsb is_structuring (snd (ocr_pages env images acc)) = false.
Proof.
  revert acc. induction images as [|page rest IH]; intros acc; simpl;
    [reflexivity|].
  rewrite snd_bind, existsb_app. simpl.
  destruct (image_to_string env page); simpl; [reflexivity|apply IH].
Qed.

Lemma no_structuring_file file_bytes file_path :
  existsb is_structuring (snd (_extract_text_from_file env file_bytes file_path))
  = false.
Proof.
  unfold _extract_text_from_file.
  destruct (String.eqb _ ".pdf").
  - unfold _extract_text_from_pdf. rewrite snd_bind, existsb_app. simpl.
    destruct (pdf_page_texts env file_bytes) as [msg|page_texts]; simpl;
      [reflexivity|].
    destruct (_ && _); [reflexivity|].
    rewrite snd_bind, existsb_app. simpl.
    destruct (convert_from_path env file_bytes 300); simpl; [reflexivity|].
    apply no_structuring_ocr_pages.
  - destruct (existsb _ image_extensions); [|reflexivity].
    unfold _extract_text_from_image. rewrite snd_bind, existsb_app. simpl.
    destruct (image_open env file_bytes) as [msg|img]; simpl; [reflexivity|].
    now destruct (image_to_string env img).
Qed.

Lemma native_text_test (text : string) :
  negb (String.eqb text EmptyString) && (50 <? len (strip text)) = (50 <? len (strip text)).
Proof.
  destruct (String.eqb_spec text EmptyString); [subst; reflexivity|reflexivity].
Qed.

Lemma pdf_after_reader (pdf_bytes : list byte) (page_texts : list string) :
  pdf_page_texts env pdf_bytes = inr page_texts ->
  _extract_text_from_pdf env pdf_bytes
  = if 50 <? len (strip (join_page_texts page_texts))
    then (inr (join_page_texts page_texts), [EvPdfReader])
    else
      let ocr := bind (call (EvConvertFromPath 300)
                            (convert_from_path env pdf_bytes 300))
                      (fun images => ocr_pages env images EmptyString) in
      (fst ocr, EvPdfReader :: snd ocr).
Proof.
  intros Hpdf. unfold _extract_text_from_pdf. rewrite Hpdf.
  unfold bind at 1. cbn [call fst snd]. rewrite native_text_test.
  now destruct (50 <? len (strip (join_page_texts page_texts))).
Qed.

(** C5 (amended).  For a PDF whose text layer PyPDF2 reads, the native
    text is returned, with no rasterisation and no OCR, exactly when its
    length after trimming whitespace exceeds 50; a text of exactly 50
    characters after trimming goes to OCR.  Otherwise the PDF is
    rasterised at 300 DPI and, Tesseract reading every page, the result is
    the page texts in page order, a newline after each. *)
Theorem pdf_native_text_accepted_when_over_50_chars
    (pdf_bytes : list byte) (page_texts : list string) :
  pdf_page_texts env pdf_bytes = inr page_texts ->
  (50 < len (strip (join_page_texts page_texts)) ->
     _extract_text_from_pdf env pdf_bytes
     = (inr (join_page_texts page_texts), [EvPdfReader]))
  /\ (len (strip (join_page_texts page_texts)) <= 50 ->
      forall images texts,
        convert_from_path env pdf_bytes 300 = inr images ->
        map (image_to_string env) images = map inr texts ->
        _extract_text_from_pdf env pdf_bytes
        = (inr (lines texts),
           EvPdfReader :: EvConvertFromPath 300 :: map EvImageToString images))
  /\ existsb is_ocr (snd (_extract_text_from_pdf env pdf_bytes))
     = (len (strip (join_page_texts page_texts)) <=? 50).
Proof.
  intros Hpdf. rewrite (pdf_after_reader _ _ Hpdf).
  destruct (Z.ltb_spec 50 (len (strip (join_page_texts page_texts)))) as [Hlt|Hle].
  - repeat split.
    + intros H. lia.
    + simpl. symmetry. apply Z.leb_gt. assumption.
  - cbv zeta. repeat split.
    + intros H. lia.
    + intros _ images texts Hconv Hocr. rewrite Hconv.
      unfold bind. cbn [call fst snd].
      rewrite (ocr_pages_ok images EmptyString texts Hocr). reflexivity.
    + cbn [snd existsb is_ocr]. rewrite snd_bind. simpl.
      symmetry. apply Z.leb_le. assumption.
Qed.

(** C9.  With [file_extension] the lower-cased suffix of the path, as the
    code takes it: if it is neither [.pdf] nor one of [.png], [.jpg],
    [.jpeg], [.tiff], [.bmp], text extraction raises "Unsupported file
    type" having called nothing; if it is one of them, whatever exception
    extraction raises is one of a library it called, never that one. *)
Theorem unsupported_extension_rejected_before_extraction
    (file_bytes : list byte) (file_path : string) :
  (file_extension_of env file_path <> ".pdf" ->
   ~ In (file_extension_of env file_path) image_extensions ->
   _extract_text_from_file env file_bytes file_path
   = (inl (UnsupportedFileType (file_extension_of env file_path)), []))
  /\ (file_extension_of env file_path = ".pdf"
      \/ In (file_extension_of env file_path) image_extensions ->
      forall ext,
        fst (_extract_text_from_file env file_bytes file_path)
        <> inl (UnsupportedFileType ext)).
Proof.
  unfold _extract_text_from_file. split.
  - intros Hpdf Himg.
    destruct (String.eqb_spec (file_extension_of env file_path) ".pdf");
      [contradiction|].
    destruct (existsb _ image_extensions) eqn:E; [|reflexivity].
    apply existsb_exists in E. destruct E as (x & Hx & Ex).
    apply String.eqb_eq in Ex. subst x. contradiction.
  - intros Hsup ext Hraise.
    assert (Hext : external_only (if String.eqb (file_extension_of env file_path) ".pdf"
                                  then _extract_text_from_pdf env file_bytes
                                  else _extract_text_from_image env file_bytes)).
    { destruct (String.eqb _ ".pdf"); [apply external_pdf|apply external_image]. }
    destruct (String.eqb_spec (file_extension_of env file_path) ".pdf") as [E|N].
    + destruct (Hext _ Hraise) as [msg Hmsg]. discriminate.
    + destruct Hsup as [?|Hin]; [contradiction|].
      assert (E : existsb (String.eqb (file_extension_of env file_path))
                          image_extensions = true).
      { apply existsb_exists. exists (file_extension_of env file_path).
        split; [assumption|apply String.eqb_refl]. }
      rewrite E in Hraise. destruct (Hext _ Hraise) as [msg Hmsg]. discriminate.
Qed.

(** *** Structuring *)

Lemma regex_never_fails (text : string) :
  exists d, _extract_with_regex (image := image) text = (inr (VDict d), [EvRegex text]).
Proof. unfold _extract_with_regex. eexists. reflexivity. Qed.

(** C7.  Whenever the call to the generative model raises, or its answer,
    trimmed and freed of a code fence, is refused by the JSON parser,
    [_extract_with_gemini] returns what the regex stage returns on the same
    text; when the answer parses it returns the parsed value; in no case
    does it raise. *)
Theorem gemini_error_falls_back_to_regex (text : string) :
  (forall msg,
     generate_content env (build_prompt text) = inl msg ->
     _extract_with_gemini env text
     = (fst (_extract_with_regex (image := image) text),
        [EvGenerateContent (build_prompt text); EvRegex text]))
  /\ (forall response msg,
        generate_content env (build_prompt text) = inr response ->
        json_loads env (strip_code_fence (strip response)) = inl msg ->
        _extract_with_gemini env text
        = (fst (_extract_with_regex (image := image) text),
           [EvGenerateContent (build_prompt text); EvRegex text]))
  /\ (forall response v,
        generate_content env (build_prompt text) = inr response ->
        json_loads env (strip_code_fence (strip response)) = inr v ->
        _extract_with_gemini env text
        = (inr v, [EvGenerateContent (build_prompt text)]))
  /\ (forall e, fst (_extract_with_gemini env text) <> inl e).
Proof.
  destruct (regex_never_fails text) as [d Hd].
  unfold _extract_with_gemini, try_except, bind, call, lib, ret.
  rewrite Hd. repeat split.
  - intros msg ->. reflexivity.
  - intros response msg -> . cbn [fst snd]. intros ->. reflexivity.
  - intros response v ->. cbn [fst snd]. intros ->. reflexivity.
  - intros e. destruct (generate_content env (build_prompt text)) as [msg|response];
      cbn [fst snd]; [discriminate|].
    destruct (json_loads env (strip_code_fence (strip response))); cbn [fst snd];
      discriminate.
Qed.

(** The loop over a list of patterns stops at the first that matches. *)
Lemma first_match_spec (patterns : list regex) (text : string) :
  match first_match patterns text with
  | Some g =>
    exists before_it pattern after_it,
      patterns = before_it ++ pattern :: after_it
      /\ (forall p, In p before_it -> re_search p text = None)
      /\ re_search pattern text = Some g
  | None => forall p, In p patterns -> re_search p text = None
  end.
Proof.
  induction patterns as [|p rest IH]; simpl; [intros p []|].
  destruct (re_search p text) as [g|] eqn:Hp.
  - exists [], p, rest. repeat split; [intros q []|assumption].
  - destruct (first_match rest text) as [g|].
    + destruct IH as (b & q & a & -> & Hb & Hq).
      exists (p :: b), q, a. repeat split; [|assumption].
      intros p' [<-|Hin]; auto.
    + intros p' [<-|Hin]; auto.
Qed.

(** C8.  On the text "Invoice #1001 Total: $250.00" the regex stage, which
    is the structuring stage when no API key is configured, yields invoice
    number "1001", total amount 250.0 and currency "USD".  On every text it
    returns a record and never raises; each of [invoice_number],
    [invoice_date] and [total_amount] is taken from the first pattern of
    its list that matches and is [None] when none does (or, for the
    amount, when the matched text has no digit); [currency] is "USD" and
    [vendor_name] is [None]. *)
Theorem regex_fallback_takes_first_match_per_field :
  _extract_invoice_data env (new_processor EmptyString) scenario_text
  = (inr (VDict [ ("vendor_name", VNone); ("invoice_number", VStr "1001");
                  ("invoice_date", VNone); ("total_amount", VFloat float_250);
                  ("currency", VStr "USD") ]),
     [EvRegex scenario_text])
  /\ float_250 = binary_normalize 53 1024 250 0 false
  /\ (forall text,
        exists d,
          _extract_with_regex (image := image) text = (inr (VDict d), [EvRegex text])
          /\ dict_get d "vendor_name" = VNone
          /\ dict_get d "currency" = VStr "USD"
          /\ dict_get d "invoice_number"
             = match first_match invoice_patterns text with
               | Some g => VStr g
               | None => VNone
               end
          /\ dict_get d "invoice_date"
             = match first_match date_patterns text with
               | Some g => VStr g
               | None => VNone
               end
          /\ dict_get d "total_amount"
             = match first_match amount_patterns text with
               | Some g =>
                 match float_of_string (remove_char ","%char g) with
                 | Some f => VFloat f
                 | None => VNone
                 end
               | None => VNone
               end)
  /\ (forall patterns text,
        match first_match patterns text with
        | Some g =>
          exists before_it pattern after_it,
            patterns = before_it ++ pattern :: after_it
            /\ (forall p, In p before_it -> re_search p text = None)
            /\ re_search pattern text = Some g
        | None => forall p, In p patterns -> re_search p text = None
        end).
Proof.
  split; [vm_compute; reflexivity|].
  split; [vm_compute; reflexivity|].
  split; [|apply first_match_spec].
  intros text. unfold _extract_with_regex. eexists. split; [reflexivity|].
  destruct (first_match invoice_patterns text) as [g1|];
    destruct (first_match date_patterns text) as [g2|];
    destruct (first_match amount_patterns text) as [g3|];
    try destruct (float_of_string (remove_char ","%char g3));
    repeat split.
Qed.

(** *** The content threshold *)

(** A structuring stage, once entered, is seen in the trace. *)
Lemma structuring_is_seen (self : InvoiceProcessor) (text : string) :
  existsb is_structuring (snd (_extract_invoice_data env self text)) = true.
Proof.
  unfold _extract_invoice_data. destruct (gemini_enabled self).
  - unfold _extract_with_gemini. rewrite snd_try_except, snd_bind.
    rewrite !existsb_app. reflexivity.
  - reflexivity.
Qed.

Lemma short_text_test (text : string) :
  String.eqb text EmptyString || (len (strip text) <? 10) = (len (strip text) <? 10).
Proof. destruct (String.eqb_spec text EmptyString); [subst; reflexivity|reflexivity]. Qed.

Lemma extract_and_store_after_text self invoice_id now file_bytes file_path text t :
  _extract_text_from_file env file_bytes file_path = (inr text, t) ->
  extract_and_store env self invoice_id now file_bytes file_path
  = if len (strip text) <? 10 then (inl NoMeaningfulText, t)
    else
      let rest :=
        bind (_extract_invoice_data env self text)
          (fun structured_data =>
             match structured_data with
             | VDict d =>
               bind (call (EvUpdateInvoice invoice_id (build_update_data d now))
                          (update_invoice env invoice_id (build_update_data d now)))
                    (fun _ => ret (VDict [ ("success", VBool true);
                                           ("invoice_id", VStr invoice_id);
                                           ("extracted_data", structured_data);
                                           ("text_length", VInt (len text)) ]))
             | other =>
               raise (External ("'" ++ type_name other
                                ++ "' object has no attribute 'get'"))
             end) in
      (fst rest, t ++ snd rest).
Proof.
  intros H. unfold extract_and_store. rewrite H.
  unfold bind at 1. cbn [fst snd]. rewrite short_text_test.
  destruct (len (strip text) <? 10); [now rewrite app_nil_r|reflexivity].
Qed.

Lemma process_invoice_after_download
    self invoice_id user_id now invoice rows file_path file_bytes :
  select_invoice env invoice_id = inr (invoice :: rows) ->
  dict_get invoice "file_path" = VStr file_path ->
  file_path <> EmptyString ->
  storage_download env (lstrip_char "/"%char file_path) = inr file_bytes ->
  file_bytes <> [] ->
  process_invoice env self invoice_id user_id now
  = try_except
      (fst (extract_and_store env self invoice_id now file_bytes file_path),
       EvSelectInvoice invoice_id :: EvDownload (lstrip_char "/"%char file_path)
         :: snd (extract_and_store env self invoice_id now file_bytes file_path))
      (fun e =>
         bind (call (EvUpdateInvoice invoice_id (failure_update now e))
                    (update_invoice env invoice_id (failure_update now e)))
              (fun _ => ret (VDict [ ("success", VBool false);
                                     ("invoice_id", VStr invoice_id);
                                     ("error", VStr (error_str e)) ]))).
Proof.
  intros Hsel Hpath Hne Hdl Hbytes. unfold process_invoice. f_equal.
  rewrite Hsel. unfold bind at 1. cbn [call fst snd]. rewrite Hpath.
  destruct (String.eqb_spec file_path EmptyString); [contradiction|].
  unfold _download_file_from_storage. rewrite Hdl.
  destruct file_bytes as [|b0 bs]; [contradiction|].
  unfold bind at 2. cbn [call fst snd ret]. unfold bind at 1. cbn [fst snd ret app].
  reflexivity.
Qed.

(** C6 (amended).  Once the file is fetched and its text acquired, the
    pipeline fails with "OCR failed to extract meaningful text from
    invoice" and enters no structuring stage exactly when the text, trimmed
    of leading and trailing whitespace, is shorter than 10 characters;
    whitespace inside the text counts.  With 10 characters or more it goes
    on to structuring. *)
Theorem short_text_fails_before_structuring
    (self : InvoiceProcessor) (invoice_id user_id now : string)
    (invoice : dict) (rows : list dict) (file_path : string)
    (file_bytes : list byte) (text : string) (t : list (event image)) :
  select_invoice env invoice_id = inr (invoice :: rows) ->
  dict_get invoice "file_path" = VStr file_path ->
  file_path <> EmptyString ->
  storage_download env (lstrip_char "/"%char file_path) = inr file_bytes ->
  file_bytes <> [] ->
  _extract_text_from_file env file_bytes file_path = (inr text, t) ->
  existsb is_structuring (snd (process_invoice env self invoice_id user_id now))
  = (10 <=? len (strip text))
  /\ (len (strip text) < 10 ->
      snd (process_invoice env self invoice_id user_id now)
      = EvSelectInvoice invoice_id :: EvDownload (lstrip_char "/"%char file_path)
          :: t ++ [EvUpdateInvoice invoice_id (failure_update now NoMeaningfulText)]
      /\ (update_invoice env invoice_id (failure_update now NoMeaningfulText) = inr tt ->
          fst (process_invoice env self invoice_id user_id now)
          = inr (VDict [ ("success", VBool false);
                         ("invoice_id", VStr invoice_id);
                         ("error",
                          VStr "OCR failed to extract meaningful text from invoice") ])))
  /\ (10 <= len (strip text) ->
      exists rest,
        snd (process_invoice env self invoice_id user_id now)
        = EvSelectInvoice invoice_id :: EvDownload (lstrip_char "/"%char file_path)
            :: t ++ snd (_extract_invoice_data env self text) ++ rest).
Proof.
  intros Hsel Hpath Hne Hdl Hbytes Htext.
  rewrite (process_invoice_after_download _ _ _ _ _ _ _ _ Hsel Hpath Hne Hdl Hbytes).
  rewrite (extract_and_store_after_text _ _ _ _ _ _ _ Htext).
  pose proof (no_structuring_file file_bytes file_path) as Hno.
  rewrite Htext in Hno. cbn [snd] in Hno.
  destruct (Z.ltb_spec (len (strip text)) 10) as [Hlt|Hge].
  - assert (E : (10 <=? len (strip text)) = false) by (apply Z.leb_gt; assumption).
    rewrite E. unfold try_except, bind, call. cbn [fst snd].
    repeat split.
    + rewrite existsb_app. cbn [existsb is_structuring orb]. rewrite Hno.
      now destruct (update_invoice env invoice_id _).
    + destruct (update_invoice env invoice_id _); reflexivity.
    + intros ->. reflexivity.
    + lia.
  - assert (E : (10 <=? len (strip text)) = true) by (apply Z.leb_le; assumption).
    rewrite E. cbv zeta. repeat split.
    + rewrite snd_try_except. cbn [fst snd].
      rewrite existsb_app. cbn [existsb is_structuring].
      rewrite existsb_app, Hno, snd_bind, existsb_app, structuring_is_seen.
      reflexivity.
    + intros. lia.
    + intros. lia.
    + intros _. rewrite snd_try_except. cbn [fst snd]. rewrite snd_bind.
      eexists. cbn [app]. rewrite <- !app_assoc. reflexivity.
Qed.

End Stages.

Lemma pdf_native_text_witness :
  _extract_text_from_pdf (document ".pdf" [(fifty_chars ++ "x")%string] [scenario_text])
                         [x25; x50]
  = (inr (join_page_texts [(fifty_chars ++ "x")%string]), [EvPdfReader]).
Proof.
  apply (proj1 (pdf_native_text_accepted_when_over_50_chars
                  (document ".pdf" [(fifty_chars ++ "x")%string] [scenario_text])
                  [x25; x50] [(fifty_chars ++ "x")%string] eq_refl)).
  vm_compute. reflexivity.
Defined.

(** C5 as stated fails: a text layer of exactly 50 characters, "at least
    50", is not accepted, and the PDF is rasterised and read by OCR. *)
Lemma fifty_chars_of_native_text_go_to_ocr :
  len fifty_chars = 50
  /\ len (strip (join_page_texts [fifty_chars])) = 50
  /\ _extract_text_from_pdf (document ".pdf" [fifty_chars] [scenario_text]) [x25; x50]
     = (inr (scenario_text ++ nl)%string,
        [EvPdfReader; EvConvertFromPath 300; EvImageToString scenario_text]).
Proof. vm_compute. repeat split. Qed.

Lemma short_text_witness :
  existsb is_structuring
    (snd (process_invoice (document ".png" [] ["012345678"]) (new_processor EmptyString)
                          "inv-1" "user-1" "2024-01-01T00:00:00"))
  = (10 <=? len (strip "012345678")).
Proof.
  refine (proj1 (short_text_fails_before_structuring
                   (document ".png" [] ["012345678"]) (new_processor EmptyString)
                   "inv-1" "user-1" "2024-01-01T00:00:00"
                   [("id", VStr "inv-1"); ("file_path", VStr "/user-1/scan.png")] []
                   "/user-1/scan.png" [x25; x50; x44; x46] "012345678"
                   [EvImageOpen; EvImageToString "012345678"] _ _ _ _ _ _)).
  - reflexivity.
  - reflexivity.
  - discriminate.
  - reflexivity.
  - discriminate.
  - reflexivity.
Defined.

(** C6 as stated fails: a text of exactly 10 characters does not exceed
    10, yet the pipeline goes on to structuring and succeeds; so does a
    text of two letters with eight blanks between them. *)
Lemma ten_chars_of_text_reach_structuring :
  len (strip ten_chars) = 10
  /\ process_invoice (document ".png" [] [ten_chars]) (new_processor EmptyString)
                     "inv-1" "user-1" "2024-01-01T00:00:00"
     = (inr (VDict [ ("success", VBool true); ("invoice_id", VStr "inv-1");
                     ("extracted_data",
                      VDict [ ("vendor_name", VNone); ("invoice_number", VNone);
                              ("invoice_date", VNone); ("total_amount", VNone);
                              ("currency", VStr "USD") ]);
                     ("text_length", VInt 10) ]),
        [ EvSelectInvoice "inv-1"; EvDownload "user-1/scan.png"; EvImageOpen;
          EvImageToString ten_chars; EvRegex ten_chars;
          EvUpdateInvoice "inv-1"
            [ ("status", VStr "completed");
              ("processed_at", VStr "2024-01-01T00:00:00Z");
              ("currency", VStr "USD"); ("line_items", VList []) ] ])
  /\ existsb is_structuring
       (snd (process_invoice (document ".png" [] ["a        b"]) (new_processor EmptyString)
                             "inv-1" "user-1" "2024-01-01T00:00:00")) = true.
Proof. vm_compute. repeat split. Qed.

Lemma gemini_error_witness :
  _extract_with_gemini (document ".png" [] [scenario_text]) scenario_text
  = (fst (_extract_with_regex (image := string) scenario_text),
     [EvGenerateContent (build_prompt scenario_text); EvRegex scenario_text]).
Proof.
  apply (proj1 (gemini_error_falls_back_to_regex
                  (document ".png" [] [scenario_text]) scenario_text)
           "429 quota exceeded").
  reflexivity.
Defined.

Lemma regex_fallback_witness :
  match first_match amount_patterns "Amount Due: 1,234.50" with
  | Some g =>
    exists before_it pattern after_it,
      amount_patterns = before_it ++ pattern :: after_it
      /\ (forall p, In p before_it -> re_search p "Amount Due: 1,234.50" = None)
      /\ re_search pattern "Amount Due: 1,234.50" = Some g
  | None => forall p, In p amount_patterns -> re_search p "Amount Due: 1,234.50" = None
  end.
Proof.
  exact (proj2 (proj2 (proj2 (regex_fallback_takes_first_match_per_field
                                (document ".png" [] [scenario_text]))))
           amount_patterns "Amount Due: 1,234.50").
Defined.

Lemma unsupported_extension_witness :
  _extract_text_from_file (document ".GIF" [] [scenario_text]) [x47; x49; x46]
                          "/user-1/scan.GIF"
  = (inl (UnsupportedFileType ".gif"), []).
Proof.
  apply (proj1 (unsupported_extension_rejected_before_extraction
                  (document ".GIF" [] [scenario_text]) [x47; x49; x46]
                  "/user-1/scan.GIF")).
  - vm_compute. discriminate.
  - vm_compute. intuition discriminate.
Defined.

End InvoiceProcessorProofs.

(** ** Further properties of the job queue *)

Module JobQueueMoreProofs.
Import JobQueueModel JobQueueMore QueueScenarios JobQueueProofs.

(** *** Statistics *)

Lemma count_status_all (js : list Job) :
  Z.of_nat (List.length js)
  = count_status js PENDING + count_status js PROCESSING
    + count_status js COMPLETED + count_status js FAILED
    + count_status js RETRYING + count_status js CANCELLED.
Proof.
  induction js as [|j r IH]; [reflexivity|].
  cbn [List.length count_status fold_right]. fold (count_status r PENDING).
  fold (count_status r PROCESSING). fold (count_status r COMPLETED).
  fold (count_status r FAILED). fold (count_status r RETRYING).
  fold (count_status r CANCELLED).
  rewrite Nat2Z.inj_succ, IH. destruct (status j); simpl status_eqb; lia.
Qed.

Lemma count_status_nonneg (js : list Job) (s : JobStatus) : 0 <= count_status js s.
Proof.
  induction js as [|j r IH]; simpl; [lia|].
  fold (count_status r s). destruct (status_eqb (status j) s); lia.
Qed.

Lemma count_status_zero (js : list Job) (s : JobStatus) :
  count_status js s = 0 <-> forall j, In j js -> status j <> s.
Proof.
  induction js as [|j r IH]; simpl.
  - split; [intros _ j []|reflexivity].
  - fold (count_status r s). pose proof (count_status_nonneg r s) as P.
    destruct (status_eqb (status j) s) eqn:E.
    + split; [lia|]. intros H. apply status_eqb_eq in E.
      now destruct (H j (or_introl eq_refl)).
    + split.
      * intros H j' [<-|Hin].
        -- intros C. apply status_eqb_eq in C. congruence.
        -- apply IH; [lia|assumption].
      * intros H. simpl. apply IH. intros j' Hin. apply H. now right.
Qed.

(** X1.  The five counts of [get_stats] add up to [total_jobs] less the
    number of cancelled jobs, which no count reports: they add up to the
    total exactly when no job is [CANCELLED]. *)
Theorem get_stats_counts_leave_out_cancelled (q : JobQueue) :
  total_jobs (get_stats q)
  = pending (get_stats q) + processing (get_stats q) + completed (get_stats q)
    + failed (get_stats q) + retrying (get_stats q)
    + count_status (jobs q) CANCELLED
  /\ (pending (get_stats q) + processing (get_stats q) + completed (get_stats q)
      + failed (get_stats q) + retrying (get_stats q) = total_jobs (get_stats q)
      <-> forall j, In j (jobs q) -> status j <> CANCELLED).
Proof.
  pose proof (count_status_all (jobs q)) as H. simpl. split; [exact H|].
  rewrite <- count_status_zero. lia.
Qed.

(** *** What an execution keeps and what it changes *)

Ltac by_cases_of_executed :=
  unfold executed, apply_status; cbv zeta;
  repeat match goal with
         | |- context [match run_handler ?w ?t ?p with _ => _ end] =>
           destruct (run_handler w t p)
         | |- context [if ?b then _ else _] => destruct b
         end; simpl; auto.

Lemma executed_identity job a :
  id (executed job a) = id job
  /\ type (executed job a) = type job
  /\ payload (executed job a) = payload job
  /\ priority (executed job a) = priority job
  /\ max_retries (executed job a) = max_retries job
  /\ created_at (executed job a) = created_at job
  /\ attempts (executed job a) = attempts job + 1.
Proof. repeat split; by_cases_of_executed. Qed.

Lemma executed_started_at job a :
  started_at (executed job a)
  = if truthy_str (started_at job) then started_at job else Some (t_start a).
Proof.
  unfold executed, apply_status. cbv zeta. simpl status_eqb. simpl truthy_str.
  simpl truthy_dict. cbv iota. simpl started_at.
  destruct (truthy_str (started_at job)); simpl;
    destruct (run_handler (world a) (type job) (payload job)); simpl;
    repeat match goal with
           | |- context [if ?b then _ else _] => destruct b
           end; reflexivity.
Qed.

(** A property of the job that every execution keeps holds after any
    number of executions. *)
Lemma execute_attempts_keeps (P : Job -> Prop) :
  (forall job a, P job -> P (executed job a)) ->
  forall turns q job,
    jobs_get (jobs q) (id job) = Some job -> P job ->
    exists job',
      jobs_get (jobs (execute_attempts q (id job) turns)) (id job) = Some job'
      /\ P job'.
Proof.
  intros Hkeep. induction turns as [|a turns IH]; intros q job Hget HP.
  - exists job. auto.
  - cbn [execute_attempts]. rewrite Hget.
    pose proof (process_job_same q job a Hget) as Hget'.
    destruct (executed_identity job a) as (Ei & _).
    rewrite <- Ei in Hget' |- *.
    apply IH; [assumption|now apply Hkeep].
Qed.

(** X2.  [started_at] is written once: however often a job is executed,
    and whatever its executions end in, its [started_at] is the clock
    reading of its first execution. *)
Theorem started_at_is_the_first_start
    (q : JobQueue) (job : Job) (a : Attempt) (turns : list Attempt) :
  jobs_get (jobs q) (id job) = Some job ->
  truthy_str (started_at job) = false ->
  t_start a <> EmptyString ->
  exists job',
    jobs_get (jobs (execute_attempts q (id job) (a :: turns))) (id job) = Some job'
    /\ started_at job' = Some (t_start a).
Proof.
  intros Hget Hnone Hclock. cbn [execute_attempts]. rewrite Hget.
  pose proof (process_job_same q job a Hget) as Hget'.
  destruct (executed_identity job a) as (Ei & _).
  rewrite <- Ei in Hget' |- *.
  apply (execute_attempts_keeps (fun j => started_at j = Some (t_start a)));
    [|assumption|].
  - intros j a' Hj. rewrite executed_started_at, Hj.
    destruct (t_start a); [contradiction|reflexivity].
  - now rewrite executed_started_at, Hnone.
Qed.

Lemma started_at_witness :
  exists job',
    jobs_get (jobs (execute_attempts invoice_queue (id invoice_job)
                      [no_collaborators; database_up])) (id invoice_job) = Some job'
    /\ started_at job' = Some (t_start no_collaborators).
Proof.
  apply (started_at_is_the_first_start invoice_queue invoice_job
           no_collaborators [database_up]).
  - vm_compute. reflexivity.
  - reflexivity.
  - discriminate.
Defined.

(** X3.  Looking a job up after [add_job]: under the new identifier the
    job just built, pending and with no attempt made, also when the
    identifier was already in use, in which case the earlier job is gone
    and the number of jobs is unchanged; under any other identifier what
    was there before. *)
Theorem add_job_then_get_job
    (q : JobQueue) (job_id now job_type : string) (data : dict)
    (prio : JobPriority) (retries : Z) (k : string) :
  fst (get_job (snd (add_job q job_id now job_type data prio retries)) k)
  = (if String.eqb k job_id
     then Some (mkJob job_id job_type data PENDING prio 0 retries
                      None None now None None)
     else fst (get_job q k))
  /\ List.length (jobs (snd (add_job q job_id now job_type data prio retries)))
     = match fst (get_job q job_id) with
       | Some _ => List.length (jobs q)
       | None => S (List.length (jobs q))
       end.
Proof.
  unfold add_job, get_job. cbv zeta. cbn [fst snd]. rewrite jobs_db_request.
  cbn [jobs with_jobs].
  set (job := mkJob job_id job_type data PENDING prio 0 retries None None now None None).
  split.
  - destruct (String.eqb_spec k job_id) as [->|N].
    + exact (jobs_get_set_same (jobs q) job).
    + now apply jobs_get_set_other.
  - destruct (jobs_get (jobs q) job_id) as [x|] eqn:G.
    + change job_id with (id job) in G.
      pose proof (ids_jobs_set_present _ _ _ G) as H.
      apply (f_equal (@List.length string)) in H. now rewrite !length_map in H.
    + change job_id with (id job) in G.
      rewrite (jobs_set_absent _ _ G), length_app. simpl. lia.
Qed.

Lemma running_update_job_status q now k st e r :
  running (update_job_status q now k st e r) = running q.
Proof.
  unfold update_job_status, db_request.
  destruct (jobs_get (jobs q) k); [|reflexivity]. simpl.
  now destruct (supabase q).
Qed.

Lemma no_client_update_job_status q now k st e r :
  supabase q = None -> supabase (update_job_status q now k st e r) = None.
Proof.
  intros H. unfold update_job_status, db_request.
  destruct (jobs_get (jobs q) k); [|assumption]. simpl. now rewrite H.
Qed.

(** X4.  [process_job] adds no job, removes none and reorders none, and
    leaves every job but the one it was given exactly as it was; without a
    database client it leaves the queue without one. *)
Theorem process_job_touches_one_job (q : JobQueue) (job : Job) (a : Attempt) :
  map id (jobs (snd (process_job q job a))) = map id (jobs q)
  /\ (forall k, k <> id job ->
        jobs_get (jobs (snd (process_job q job a))) k = jobs_get (jobs q) k)
  /\ running (snd (process_job q job a)) = running q
  /\ (supabase q = None -> supabase (snd (process_job q job a)) = None).
Proof.
  split; [apply ids_process_job|].
  split; [intros k Hk; now apply process_job_other|].
  unfold process_job. cbv zeta.
  set (j1 := set_attempts job (attempts job + 1)).
  set (q1 := match jobs_get (jobs q) (id j1) with
             | Some _ => with_jobs q (jobs_set (jobs q) j1)
             | None => q
             end).
  assert (R1 : running q1 = running q)
    by (unfold q1; now destruct (jobs_get (jobs q) (id j1))).
  assert (S1 : supabase q = None -> supabase q1 = None)
    by (unfold q1; now destruct (jobs_get (jobs q) (id j1))).
  destruct (run_handler (world a) (type j1) (payload j1)) as [res|msg];
    [|destruct (attempts j1 <? max_retries j1)]; cbn [snd];
    rewrite !running_update_job_status; (split; [assumption|]);
    intros H; repeat apply no_client_update_job_status; auto.
Qed.

(** X5.  [process_job] returns [True] exactly when it leaves the job
    [COMPLETED], and [False] exactly when it leaves it [PENDING] (to be
    retried) or [FAILED]; the job is never left [PROCESSING], [RETRYING]
    or [CANCELLED]. *)
Theorem process_job_result_tells_the_status
    (q : JobQueue) (job : Job) (a : Attempt) :
  jobs_get (jobs q) (id job) = Some job ->
  exists job',
    jobs_get (jobs (snd (process_job q job a))) (id job) = Some job'
    /\ (fst (process_job q job a) = true <-> status job' = COMPLETED)
    /\ (fst (process_job q job a) = false
        <-> status job' = PENDING \/ status job' = FAILED)
    /\ status job' <> PROCESSING /\ status job' <> RETRYING
    /\ status job' <> CANCELLED.
Proof.
  intros Hget. exists (executed job a). split; [now apply process_job_same|].
  assert (Hfst : fst (process_job q job a)
                 = match run_handler (world a) (type job) (payload job) with
                   | Returned _ => true
                   | Raised _ => false
                   end).
  { unfold process_job. cbv zeta.
    change (type (set_attempts job (attempts job + 1))) with (type job).
    change (payload (set_attempts job (attempts job + 1))) with (payload job).
    destruct (run_handler (world a) (type job) (payload job)); [reflexivity|].
    now destruct (_ <? _). }
  rewrite Hfst.
  destruct (run_handler (world a) (type job) (payload job)) as [res|e] eqn:H.
  - destruct (executed_returned _ _ _ H) as (-> & _).
    repeat split; try discriminate; try reflexivity.
    intros [C|C]; discriminate.
  - destruct (executed_raised _ _ _ H) as (-> & _).
    destruct (attempts job + 1 <? max_retries job);
      repeat split; try discriminate; auto.
Qed.

Lemma process_job_result_witness :
  exists job',
    jobs_get (jobs (snd (process_job invoice_queue invoice_job database_up)))
             (id invoice_job) = Some job'
    /\ (fst (process_job invoice_queue invoice_job database_up) = true
        <-> status job' = COMPLETED)
    /\ (fst (process_job invoice_queue invoice_job database_up) = false
        <-> status job' = PENDING \/ status job' = FAILED)
    /\ status job' <> PROCESSING /\ status job' <> RETRYING
    /\ status job' <> CANCELLED.
Proof.
  apply (process_job_result_tells_the_status invoice_queue invoice_job database_up).
  vm_compute. reflexivity.
Defined.

(** X6.  An execution, whatever it ends in, adds exactly one to
    [attempts] and leaves the job's identifier, type, payload, priority,
    retry ceiling and creation time as they were. *)
Theorem process_job_counts_one_attempt (q : JobQueue) (job : Job) (a : Attempt) :
  jobs_get (jobs q) (id job) = Some job ->
  exists job',
    jobs_get (jobs (snd (process_job q job a))) (id job) = Some job'
    /\ attempts job' = attempts job + 1
    /\ id job' = id job /\ type job' = type job /\ payload job' = payload job
    /\ priority job' = priority job /\ max_retries job' = max_retries job
    /\ created_at job' = created_at job.
Proof.
  intros Hget. exists (executed job a). split; [now apply process_job_same|].
  destruct (executed_identity job a) as (? & ? & ? & ? & ? & ? & ?).
  repeat split; assumption.
Qed.

Lemma process_job_counts_witness :
  exists job',
    jobs_get (jobs (snd (process_job invoice_queue invoice_job no_collaborators)))
             (id invoice_job) = Some job'
    /\ attempts job' = attempts invoice_job + 1
    /\ id job' = id invoice_job /\ type job' = type invoice_job
    /\ payload job' = payload invoice_job
    /\ priority job' = priority invoice_job
    /\ max_retries job' = max_retries invoice_job
    /\ created_at job' = created_at invoice_job.
Proof.
  apply (process_job_counts_one_attempt invoice_queue invoice_job no_collaborators).
  vm_compute. reflexivity.
Defined.

(** *** The worker and the settled jobs *)

Lemma same_id_same_job (js : list Job) (j1 j2 : Job) :
  NoDup (map id js) -> In j1 js -> In j2 js -> id j1 = id j2 -> j1 = j2.
Proof.
  intros U H1 H2 E.
  pose proof (jobs_get_unique _ _ U H1) as G1.
  pose proof (jobs_get_unique _ _ U H2) as G2.
  rewrite E in G1. congruence.
Qed.

(** X7.  A turn of the worker executes a pending job and nothing else:
    every job that is not [PENDING] (completed, failed, cancelled, or in
    any other state) is in the queue after the turn exactly as before, and
    when no job is pending the turn changes nothing at all. *)
Theorem worker_leaves_settled_jobs (q : JobQueue) (a : Attempt) :
  NoDup (map id (jobs q)) ->
  (forall j, In j (jobs q) -> status j <> PENDING ->
     In j (jobs (worker_iteration q a)))
  /\ ((forall j, In j (jobs q) -> status j <> PENDING) -> worker_iteration q a = q).
Proof.
  intros U. unfold worker_iteration. split.
  - intros j Hin Hst.
    destruct (fst (get_next_job q)) as [job|] eqn:Hn; [|assumption].
    destruct (get_next_job_minimal _ _ Hn) as (Hjob & Hpend & _).
    assert (Hid : id j <> id job).
    { intros E. apply Hst. now rewrite (same_id_same_job _ _ _ U Hin Hjob E). }
    apply (jobs_get_In _ (id j)).
    rewrite (process_job_other q job a _ Hid). now apply jobs_get_unique.
  - intros H. now rewrite (proj2 (get_next_job_none q) H).
Qed.

Lemma worker_leaves_settled_jobs_witness :
  worker_iteration (start_worker invoice_queue [no_collaborators; database_up])
                   no_collaborators
  = start_worker invoice_queue [no_collaborators; database_up].
Proof.
  apply (proj2 (worker_leaves_settled_jobs
                  (start_worker invoice_queue [no_collaborators; database_up])
                  no_collaborators
                  ltac:(vm_compute; repeat constructor; intros [])));
  vm_compute; intros j [<-|[]]; discriminate.
Defined.

(** *** Cancelling *)

Lemma update_job_status_at q now k job st e r :
  jobs_get (jobs q) k = Some job ->
  jobs_get (jobs (update_job_status q now k st e r)) k
  = Some (apply_status job now st e r).
Proof.
  intros H. pose proof (jobs_get_id _ _ _ H) as E. subst k.
  now apply update_job_status_same.
Qed.



(** *** What reaches the database *)

Lemma supabase_update_at q now k job st e r log :
  supabase q = Some log ->
  jobs_get (jobs q) k = Some job ->
  supabase (update_job_status q now k st e r)
  = Some (DbUpdate k st e (if truthy_dict r then r else None)
                   (started_at (apply_status job now st e r))
                   (completed_at (apply_status job now st e r)) :: log).
Proof.
  intros Hs Hg. unfold update_job_status. rewrite Hg.
  unfold db_request. simpl. now rewrite Hs.
Qed.

(** X9.  The requests a failing execution sends to the database.  When
    the job is to be retried they are, in order, the updates to
    [PROCESSING], to [RETRYING] with the error message, and to [PENDING]
    with no error message: the row ends without the message the job in
    memory carries.  When the attempts are used up they are the update to
    [PROCESSING] and the update to [FAILED] with the message. *)
Theorem failing_execution_requests
    (q : JobQueue) (job : Job) (a : Attempt) (e : string) (log : list DbRequest) :
  supabase q = Some log ->
  jobs_get (jobs q) (id job) = Some job ->
  run_handler (world a) (type job) (payload job) = Raised e ->
  exists t1 t2 t3 t4 t5 t6,
    supabase (snd (process_job q job a))
    = Some (if attempts job + 1 <? max_retries job
            then [ DbUpdate (id job) PENDING None None t1 t2;
                   DbUpdate (id job) RETRYING (Some e) None t3 t4;
                   DbUpdate (id job) PROCESSING None None t5 t6 ] ++ log
            else [ DbUpdate (id job) FAILED (Some e) None t3 t4;
                   DbUpdate (id job) PROCESSING None None t5 t6 ] ++ log).
Proof.
  intros Hs Hg Hres. unfold process_job. cbv zeta.
  set (j1 := set_attempts job (attempts job + 1)).
  change (id j1) with (id job). rewrite Hg.
  change (type j1) with (type job). change (payload j1) with (payload job).
  rewrite Hres.
  change (attempts j1) with (attempts job + 1).
  change (max_retries j1) with (max_retries job).
  assert (H1 : jobs_get (jobs (with_jobs q (jobs_set (jobs q) j1))) (id job) = Some j1)
    by exact (jobs_get_set_same (jobs q) j1).
  assert (Hs1 : supabase (with_jobs q (jobs_set (jobs q) j1)) = Some log) by exact Hs.
  pose proof (supabase_update_at _ (t_start a) _ _ PROCESSING None None _ Hs1 H1) as Hs2.
  pose proof (update_job_status_at _ (t_start a) _ _ PROCESSING None None H1) as H2.
  set (q2 := update_job_status _ (t_start a) (id job) PROCESSING None None) in *.
  destruct (attempts job + 1 <? max_retries job); cbn [snd].
  - pose proof (supabase_update_at _ (t_end a) _ _ RETRYING (Some e) None _ Hs2 H2) as Hs3.
    pose proof (update_job_status_at _ (t_end a) _ _ RETRYING (Some e) None H2) as H3.
    pose proof (supabase_update_at _ (t_end a) _ _ PENDING None None _ Hs3 H3) as Hs4.
    exists (started_at (apply_status
                          (apply_status (apply_status j1 (t_start a) PROCESSING None None)
                                        (t_end a) RETRYING (Some e) None)
                          (t_end a) PENDING None None)),
           (completed_at (apply_status
                          (apply_status (apply_status j1 (t_start a) PROCESSING None None)
                                        (t_end a) RETRYING (Some e) None)
                          (t_end a) PENDING None None)),
           (started_at (apply_status (apply_status j1 (t_start a) PROCESSING None None)
                                     (t_end a) RETRYING (Some e) None)),
           (completed_at (apply_status (apply_status j1 (t_start a) PROCESSING None None)
                                       (t_end a) RETRYING (Some e) None)),
           (started_at (apply_status j1 (t_start a) PROCESSING None None)),
           (completed_at (apply_status j1 (t_start a) PROCESSING None None)).
    exact Hs4.
  - pose proof (supabase_update_at _ (t_end a) _ _ FAILED (Some e) None _ Hs2 H2) as Hs3.
    exists None, None,
           (started_at (apply_status (apply_status j1 (t_start a) PROCESSING None None)
                                     (t_end a) FAILED (Some e) None)),
           (completed_at (apply_status (apply_status j1 (t_start a) PROCESSING None None)
                                       (t_end a) FAILED (Some e) None)),
           (started_at (apply_status j1 (t_start a) PROCESSING None None)),
           (completed_at (apply_status j1 (t_start a) PROCESSING None None)).
    exact Hs3.
Qed.

Lemma failing_execution_requests_witness :
  exists t1 t2 t3 t4 t5 t6,
    supabase (snd (process_job
                     (mkQueue (jobs invoice_queue) (Some []) false)
                     invoice_job no_collaborators))
    = Some (if attempts invoice_job + 1 <? max_retries invoice_job
            then [ DbUpdate (id invoice_job) PENDING None None t1 t2;
                   DbUpdate (id invoice_job) RETRYING
                            (Some "Supabase admin client not available") None t3 t4;
                   DbUpdate (id invoice_job) PROCESSING None None t5 t6 ] ++ []
            else [ DbUpdate (id invoice_job) FAILED
                            (Some "Supabase admin client not available") None t3 t4;
                   DbUpdate (id invoice_job) PROCESSING None None t5 t6 ] ++ []).
Proof.
  apply (failing_execution_requests
           (mkQueue (jobs invoice_queue) (Some []) false)
           invoice_job no_collaborators "Supabase admin client not available" []).
  - reflexivity.
  - vm_compute. reflexivity.
  - reflexivity.
Defined.

(** X10.  What a failing execution records on the job: the message of
    the exception when it is not empty; with an empty message the field
    keeps what it held, so a job can be [FAILED] with no message at all.
    The result field is not touched. *)
Theorem failing_execution_records_message
    (q : JobQueue) (job : Job) (a : Attempt) (e : string) :
  jobs_get (jobs q) (id job) = Some job ->
  run_handler (world a) (type job) (payload job) = Raised e ->
  exists job',
    jobs_get (jobs (snd (process_job q job a))) (id job) = Some job'
    /\ (e <> EmptyString -> error_message job' = Some e)
    /\ (e = EmptyString -> error_message job' = error_message job)
    /\ result job' = result job.
Proof.
  intros Hget Hres. exists (executed job a).
  split; [now apply process_job_same|].
  destruct (executed_raised _ _ _ Hres) as (_ & _ & _ & _ & _ & _ & Er & Ee).
  rewrite Ee. repeat split; try assumption.
  - intros Hne. destruct e; [contradiction|reflexivity].
  - intros ->. reflexivity.
Qed.

Lemma failing_execution_records_witness :
  exists job',
    jobs_get (jobs (snd (process_job invoice_queue invoice_job
                           (mkAttempt (mkWorld (Some (Some EmptyString)) None)
                                      "2024-01-01T00:00:01" "2024-01-01T00:00:02"))))
             (id invoice_job) = Some job'
    /\ (EmptyString <> EmptyString -> error_message job' = Some EmptyString)
    /\ (EmptyString = EmptyString -> error_message job' = error_message invoice_job)
    /\ result job' = result invoice_job.
Proof.
  apply (failing_execution_records_message invoice_queue invoice_job
           (mkAttempt (mkWorld (Some (Some EmptyString)) None)
                      "2024-01-01T00:00:01" "2024-01-01T00:00:02") EmptyString).
  - vm_compute. reflexivity.
  - reflexivity.
Defined.

(** *** Admission and selection together *)

Lemma head_insert_sorted (x : Job) (l : list Job) :
  hd_error (insert_sorted x l)
  = match l with
    | [] => Some x
    | h :: _ => if job_lt h x then Some h else Some x
    end.
Proof. destruct l as [|h t]; simpl; [reflexivity|]. now destruct (job_lt h x). Qed.

(** The head of the sort when one element is appended. *)
Lemma head_sorted_app (l : list Job) (x : Job) :
  hd_error (sorted (l ++ [x]))
  = match hd_error (sorted l) with
    | None => Some x
    | Some h => if job_lt x h then Some x else Some h
    end.
Proof.
  induction l as [|a l IH]; [reflexivity|].
  cbn [app sorted]. rewrite !head_insert_sorted.
  destruct (sorted (l ++ [x])) as [|h' t'] eqn:E1; cbn [hd_error] in IH.
  - destruct (sorted l) as [|h t]; [discriminate|].
    cbn [hd_error] in IH. now destruct (job_lt x h).
  - destruct (sorted l) as [|h t] eqn:E2; cbn [hd_error] in IH |- *.
    + injection IH as ->. destruct (job_lt x a) eqn:Hxa; reflexivity.
    + destruct (job_lt x h) eqn:Hxh; injection IH as ->.
      * destruct (job_lt h a) eqn:Hha.
        -- unfold job_lt in *. rewrite (key_lt_trans _ _ _ Hxh Hha), Hxh.
           reflexivity.
        -- now destruct (job_lt x a).
      * destruct (job_lt h a) eqn:Hha.
        -- now rewrite Hxh.
        -- unfold job_lt in *. now rewrite (key_lt_negtrans _ _ _ Hxh Hha).
Qed.

Lemma get_next_job_hd (q : JobQueue) :
  fst (get_next_job q) = hd_error (sorted (filter is_pending (jobs q))).
Proof.
  rewrite get_next_job_head. now destruct (sorted (filter is_pending (jobs q))).
Qed.

(** X11.  Adding a job under a new identifier changes what
    [get_next_job] returns only if the new job sorts strictly before the
    job returned so far, by priority and then by creation time; on a tie
    the older job stays first, and with nothing pending the new job is
    returned. *)
Theorem add_job_takes_over_only_when_it_sorts_first
    (q : JobQueue) (job_id now job_type : string) (data : dict)
    (prio : JobPriority) (retries : Z) :
  jobs_get (jobs q) job_id = None ->
  fst (get_next_job (snd (add_job q job_id now job_type data prio retries)))
  = match fst (get_next_job q) with
    | None => Some (mkJob job_id job_type data PENDING prio 0 retries
                          None None now None None)
    | Some j =>
      if job_lt (mkJob job_id job_type data PENDING prio 0 retries
                       None None now None None) j
      then Some (mkJob job_id job_type data PENDING prio 0 retries
                       None None now None None)
      else Some j
    end.
Proof.
  intros Hfresh.
  set (job := mkJob job_id job_type data PENDING prio 0 retries None None now None None).
  rewrite !get_next_job_hd.
  assert (Hjobs : jobs (snd (add_job q job_id now job_type data prio retries))
                  = jobs q ++ [job]).
  { unfold add_job. cbv zeta. cbn [snd]. rewrite jobs_db_request. simpl.
    now apply (jobs_set_absent (jobs q) job). }
  rewrite Hjobs, filter_app. cbn [filter]. change (is_pending job) with true. cbv iota.
  apply head_sorted_app.
Qed.

Lemma add_job_takes_over_witness :
  fst (get_next_job (snd (add_job high_then_critical "job-n" "2024-01-01T00:00:09"
                                  "export_data" [] CRITICAL 3)))
  = match fst (get_next_job high_then_critical) with
    | None => Some (mkJob "job-n" "export_data" [] PENDING CRITICAL 0 3
                          None None "2024-01-01T00:00:09" None None)
    | Some j =>
      if job_lt (mkJob "job-n" "export_data" [] PENDING CRITICAL 0 3
                       None None "2024-01-01T00:00:09" None None) j
      then Some (mkJob "job-n" "export_data" [] PENDING CRITICAL 0 3
                       None None "2024-01-01T00:00:09" None None)
      else Some j
    end.
Proof.
  apply (add_job_takes_over_only_when_it_sorts_first high_then_critical
           "job-n" "2024-01-01T00:00:09" "export_data" [] CRITICAL 3).
  reflexivity.
Defined.

(** *** Back-off *)

Lemma backoff_raised job a e :
  run_handler (world a) (type job) (payload job) = Raised e ->
  backoff job a
  = if attempts job + 1 <? max_retries job then 2 ^ (attempts job + 1) else 0.
Proof.
  intros H. unfold backoff. cbv zeta.
  change (type (set_attempts job (attempts job + 1))) with (type job).
  change (payload (set_attempts job (attempts job + 1))) with (payload job).
  now rewrite H.
Qed.

Lemma total_backoff_failing (turns : list Attempt) :
  forall (q : JobQueue) (job : Job),
    jobs_get (jobs q) (id job) = Some job ->
    0 <= attempts job ->
    (forall a, In a turns ->
       exists e, run_handler (world a) (type job) (payload job) = Raised e) ->
    total_backoff q (id job) turns
    = 2 ^ Z.max (attempts job + 1)
              (Z.min (attempts job + Z.of_nat (List.length turns) + 1) (max_retries job))
      - 2 ^ (attempts job + 1).
Proof.
  induction turns as [|a turns IH]; intros q job Hget Hpos Hfail.
  - cbn [total_backoff List.length]. rewrite Z.add_0_r.
    replace (Z.max (attempts job + 1) (Z.min (attempts job + 1) (max_retries job)))
      with (attempts job + 1) by lia.
    lia.
  - cbn [total_backoff]. rewrite Hget.
    destruct (Hfail a (or_introl eq_refl)) as [e He].
    rewrite (backoff_raised _ _ _ He).
    destruct (executed_identity job a) as (Ei & Et & Ep & _ & Em & _ & Ea).
    pose proof (process_job_same q job a Hget) as Hget'.
    rewrite <- Ei in Hget' |- *.
    rewrite (IH _ _ Hget'); [|lia|].
    + rewrite Ea, Em. cbn [List.length]. rewrite Nat2Z.inj_succ.
      set (x := attempts job) in *. set (N := max_retries job).
      set (n := Z.of_nat (List.length turns)).
      assert (Hn : 0 <= n) by (unfold n; lia).
      assert (P2 : 2 ^ (x + 1 + 1) = 2 * 2 ^ (x + 1))
        by (rewrite <- Z.pow_succ_r by lia; f_equal; lia).
      destruct (Z.ltb_spec (x + 1) N) as [Hlt|Hge].
      * replace (Z.max (x + 1 + 1) (Z.min (x + 1 + n + 1) N))
          with (Z.min (x + 1 + n + 1) N) by lia.
        replace (Z.max (x + 1) (Z.min (x + Z.succ n + 1) N))
          with (Z.min (x + 1 + n + 1) N) by lia.
        lia.
      * replace (Z.max (x + 1 + 1) (Z.min (x + 1 + n + 1) N)) with (x + 1 + 1) by lia.
        replace (Z.max (x + 1) (Z.min (x + Z.succ n + 1) N)) with (x + 1) by lia.
        lia.
    + intros a' Ha'. rewrite Et, Ep. apply Hfail. now right.
Qed.

(** X12.  The back-off of a job that always fails doubles from one
    retry to the next, 2, 4, 8, ... seconds, with no ceiling: run from its
    admission to its failure with [max_retries = N >= 1], the job has slept
    [2^N - 2] seconds in all. *)
Theorem backoff_of_a_failing_job_is_exponential
    (q : JobQueue) (job : Job) (turns : list Attempt) :
  jobs_get (jobs q) (id job) = Some job ->
  attempts job = 0 ->
  1 <= max_retries job ->
  (forall a, In a turns ->
     exists e, run_handler (world a) (type job) (payload job) = Raised e) ->
  Z.of_nat (List.length turns) = max_retries job ->
  total_backoff q (id job) turns = 2 ^ max_retries job - 2.
Proof.
  intros Hget Hatt HN Hfail Hlen.
  rewrite (total_backoff_failing turns q job Hget); [|lia|assumption].
  rewrite Hatt, Hlen. simpl (0 + 1).
  replace (Z.max 1 (Z.min (0 + max_retries job + 1) (max_retries job)))
    with (max_retries job) by lia.
  reflexivity.
Qed.

Lemma backoff_witness :
  total_backoff (unknown_queue 5) (id (unknown_job 5))
                [no_collaborators; no_collaborators; no_collaborators;
                 no_collaborators; no_collaborators]
  = 2 ^ max_retries (unknown_job 5) - 2.
Proof.
  apply (backoff_of_a_failing_job_is_exponential (unknown_queue 5) (unknown_job 5)).
  - reflexivity.
  - reflexivity.
  - simpl. lia.
  - intros a _. eexists. reflexivity.
  - reflexivity.
Defined.

End JobQueueMoreProofs.

(** ** Further properties of the extraction pipeline *)

Module InvoiceProcessorMoreProofs.
Import Text InvoiceProcessorModel InvoiceProcessorMore InvoiceScenarios
       InvoiceProcessorProofs.

(** *** Text helpers *)

Lemma lstrip_char_slashes (s : string) :
  exists n, s = (slashes n ++ lstrip_char "/"%char s)%string
            /\ String.prefix "/" (lstrip_char "/"%char s) = false.
Proof.
  induction s as [|c r IH].
  - exists O. split; reflexivity.
  - cbn [lstrip_char]. destruct (Ascii.eqb_spec c "/"%char) as [->|N].
    + destruct IH as (n & E & P). exists (S n). split; [|assumption].
      cbn [slashes String.append]. now rewrite <- E.
    + exists O. split; [reflexivity|]. cbn [String.prefix].
      destruct (Ascii.ascii_dec "/"%char c) as [E|_]; [now destruct N|].
      reflexivity.
Qed.

Lemma prefix_empty (s : string) : String.prefix EmptyString s = true.
Proof. now destruct s. Qed.

Lemma prefix_app (s t : string) : String.prefix s (s ++ t)%string = true.
Proof.
  induction s as [|c r IH]; [apply prefix_empty|].
  cbn [String.append String.prefix].
  destruct (Ascii.ascii_dec c c) as [_|N]; [assumption|now destruct N].
Qed.

Lemma prefix_other_head (c d : ascii) (s t : string) :
  c <> d -> String.prefix (String c s) (String d t) = false.
Proof.
  intros N. cbn [String.prefix].
  destruct (Ascii.ascii_dec c d) as [E|_]; [now destruct N|reflexivity].
Qed.

Lemma before_no_backtick (body rest : string) :
  no_backtick body = true ->
  before "```" (body ++ "```" ++ rest)%string = body
  /\ before "```" body = body.
Proof.
  induction body as [|c r IH]; intros H.
  - split; [|reflexivity].
    change (EmptyString ++ "```" ++ rest)%string with ("```" ++ rest)%string.
    pose proof (prefix_app "```" rest) as P.
    cbn [String.append] in P |- *. cbn [before]. now rewrite P.
  - cbn [no_backtick] in H. apply andb_true_iff in H. destruct H as [Hc Hr].
    apply negb_true_iff in Hc. apply Ascii.eqb_neq in Hc.
    destruct (IH Hr) as [IH1 IH2].
    assert (N : "`"%char <> c) by congruence.
    split.
    + cbn [String.append before].
      rewrite (prefix_other_head _ _ _ _ N). cbn [String.append] in IH1.
      now rewrite IH1.
    + cbn [before]. rewrite (prefix_other_head _ _ _ _ N). now rewrite IH2.
Qed.

(** X16.  A response wrapped in a code fence tagged [json] is reduced to
    the trimmed text inside the fence: the tag and whatever follows the
    closing fence are dropped, and a fence never closed is treated alike.
    (Stated for an inside without backticks.) *)
Theorem code_fence_is_removed (body rest : string) :
  no_backtick body = true ->
  strip_code_fence ("```json" ++ body ++ "```" ++ rest)%string = strip body
  /\ strip_code_fence ("```json" ++ body)%string = strip body
  /\ strip_code_fence ("```" ++ body ++ "```" ++ rest)%string
     = strip (if String.prefix "json" body then drop 4 body else body).
Proof.
  intros H. unfold strip_code_fence, split_1.
  destruct (before_no_backtick body rest H) as [B1 B2].
  assert (J : no_backtick ("json" ++ body)%string = true) by exact H.
  destruct (before_no_backtick ("json" ++ body)%string rest J) as [J1 J2].
  rewrite append_assoc in J1.
  change ("```json" ++ body ++ "```" ++ rest)%string
    with ("```" ++ ("json" ++ body ++ "```" ++ rest))%string.
  change ("```json" ++ body)%string with ("```" ++ ("json" ++ body))%string.
  rewrite !prefix_app.
  change (drop 3 ("```" ++ ("json" ++ body ++ "```" ++ rest))%string)
    with ("json" ++ body ++ "```" ++ rest)%string.
  change (drop 3 ("```" ++ ("json" ++ body))%string) with ("json" ++ body)%string.
  change (drop 3 ("```" ++ body ++ "```" ++ rest)%string)
    with (body ++ "```" ++ rest)%string.
  rewrite J1, J2, B1, !prefix_app.
  change (drop 4 ("json" ++ body)%string) with body.
  repeat split.
Qed.

Lemma code_fence_witness :
  strip_code_fence ("```json" ++ " {} " ++ "```" ++ " trailing words")%string
  = strip " {} "
  /\ strip_code_fence ("```json" ++ " {} ")%string = strip " {} "
  /\ strip_code_fence ("```" ++ " {} " ++ "```" ++ " trailing words")%string
     = strip (if String.prefix "json" " {} " then drop 4 " {} " else " {} ").
Proof.
  apply (code_fence_is_removed " {} " " trailing words"). reflexivity.
Defined.

(** *** The update written on success *)

Lemma dict_lookup_absent (l : dict) (k : string) :
  ~ In k (map fst l) -> dict_lookup l k = None.
Proof.
  induction l as [|[k' v] r IH]; simpl; [reflexivity|].
  intros H. destruct (String.eqb_spec k' k) as [->|N].
  - destruct H. now left.
  - apply IH. intros Hin. apply H. now right.
Qed.

(** Looking up a key in a filtered dict with unique keys. *)
Lemma dict_lookup_filter (p : string * value -> bool) (l : dict) (k : string) :
  NoDup (map fst l) ->
  dict_lookup (filter p l) k
  = match dict_lookup l k with
    | Some v => if p (k, v) then Some v else None
    | None => None
    end.
Proof.
  induction l as [|[k' v] r IH]; simpl; [reflexivity|].
  intros U. inversion U as [|? ? Hk Hr]; subst.
  destruct (String.eqb_spec k' k) as [->|N].
  - destruct (p (k, v)); simpl.
    + now rewrite String.eqb_refl.
    + rewrite (IH Hr), (dict_lookup_absent _ _ Hk). reflexivity.
  - destruct (p (k', v)); simpl.
    + apply String.eqb_neq in N. rewrite N. now apply IH.
    + now apply IH.
Qed.

Lemma build_update_data_lookup (d : dict) (now k : string) :
  dict_lookup (build_update_data d now) k
  = match dict_lookup
            [ ("status", VStr "completed");
              ("processed_at", VStr (now ++ "Z"));
              ("vendor_name", dict_get d "vendor_name");
              ("invoice_number", dict_get d "invoice_number");
              ("invoice_date", dict_get d "invoice_date");
              ("due_date", dict_get d "due_date");
              ("total_amount", dict_get d "total_amount");
              ("subtotal", dict_get d "subtotal");
              ("tax_amount", dict_get d "tax_amount");
              ("vat_amount", dict_get d "vat_amount");
              ("currency", dict_get_default d "currency" (VStr "USD"));
              ("customer_name", dict_get d "customer_name");
              ("customer_address", dict_get d "customer_address");
              ("vendor_address", dict_get d "vendor_address");
              ("payment_terms", dict_get d "payment_terms");
              ("payment_method", dict_get d "payment_method");
              ("po_number", dict_get d "po_number");
              ("line_items", dict_get_default d "line_items" (VList []));
              ("notes", dict_get d "notes");
              ("vat_number", dict_get d "vat_number");
              ("trn", dict_get d "trn") ] k with
    | Some v => not_none v
    | None => None
    end.
Proof.
  unfold build_update_data. cbv zeta. rewrite dict_lookup_filter.
  - destruct (dict_lookup _ k) as [v|]; [|reflexivity]. now destruct v.
  - cbn [map fst].
    repeat (constructor; [cbn [In]; intuition discriminate|]). constructor.
Qed.

(** X15.  The update [process_invoice] writes on success holds no [None]
    value; it always says status "completed" and carries [processed_at];
    a column with no default is there exactly when the extracted record
    has a value other than [None] for it.  [currency] is "USD" when the
    record has no such key, but a record that holds [None] under
    [currency] leaves the column out, as for [line_items] and its default
    of an empty list. *)
Theorem update_data_drops_none_values (d : dict) (now : string) :
  (forall k v, In (k, v) (build_update_data d now) -> v <> VNone)
  /\ dict_lookup (build_update_data d now) "status" = Some (VStr "completed")
  /\ dict_lookup (build_update_data d now) "processed_at" = Some (VStr (now ++ "Z"))
  /\ (forall k, In k plain_columns ->
        dict_lookup (build_update_data d now) k = not_none (dict_get d k))
  /\ dict_lookup (build_update_data d now) "currency"
     = match dict_lookup d "currency" with
       | None => Some (VStr "USD")
       | Some v => not_none v
       end
  /\ dict_lookup (build_update_data d now) "line_items"
     = match dict_lookup d "line_items" with
       | None => Some (VList [])
       | Some v => not_none v
       end.
Proof.
  split.
  - intros k v Hin. unfold build_update_data in Hin. apply filter_In in Hin.
    destruct Hin as [_ Hv]. simpl in Hv. intros ->. discriminate.
  - repeat split; try (rewrite build_update_data_lookup; reflexivity).
    + intros k Hin. rewrite build_update_data_lookup.
      cbn [plain_columns In] in Hin.
      repeat (destruct Hin as [<-|Hin]; [reflexivity|]). destruct Hin.
    + rewrite build_update_data_lookup. cbn. unfold dict_get_default.
      now destruct (dict_lookup d "currency").
    + rewrite build_update_data_lookup. cbn. unfold dict_get_default.
      now destruct (dict_lookup d "line_items").
Qed.

Section MoreStages.

Context {image : Type} (env : Collaborators image).

(** *** Fetching the file *)

(** X19.  [_download_file_from_storage] asks the bucket for the path
    without its leading slashes, once; it passes on the bytes it gets and
    the exception the bucket raises, and on an empty response raises
    "Failed to download file from storage" naming the path as it was
    given. *)
Theorem download_strips_leading_slashes (file_path : string) :
  exists n clean_path,
    file_path = (slashes n ++ clean_path)%string
    /\ String.prefix "/" clean_path = false
    /\ snd (_download_file_from_storage env file_path) = [EvDownload clean_path]
    /\ fst (_download_file_from_storage env file_path)
       = match storage_download env clean_path with
         | inl msg => inl (External msg)
         | inr [] => inl (DownloadFailed file_path)
         | inr (b :: bs) => inr (b :: bs)
         end.
Proof.
  destruct (lstrip_char_slashes file_path) as (n & E & P).
  exists n, (lstrip_char "/"%char file_path).
  split; [assumption|]. split; [assumption|].
  unfold _download_file_from_storage, bind, call. cbn [fst snd].
  destruct (storage_download env (lstrip_char "/"%char file_path)) as [msg|[|b bs]];
    split; reflexivity.
Qed.

(** *** OCR *)

Lemma ocr_pages_fails_at (pre : list image) :
  forall acc texts page post msg,
    map (image_to_string env) pre = map inr texts ->
    image_to_string env page = inl msg ->
    ocr_pages env (pre ++ page :: post) acc
    = (inl (External msg), map EvImageToString pre ++ [EvImageToString page]).
Proof.
  induction pre as [|p pre IH]; intros acc [|t texts] page post msg Hpre Hpage;
    try discriminate.
  - cbn [app ocr_pages map]. unfold bind, call. now rewrite Hpage.
  - cbn [map] in Hpre. injection Hpre as Hp Hpre.
    cbn [app ocr_pages map]. unfold bind at 1. unfold call. rewrite Hp.
    cbn [fst snd]. now rewrite (IH _ _ _ _ _ Hpre Hpage).
Qed.

(** X21.  When Tesseract raises on a page of a PDF that went to OCR, the
    extraction raises that exception: the text of the pages read so far is
    not returned and the pages after it are not read. *)
Theorem ocr_failure_on_a_page_aborts
    (pdf_bytes : list byte) (page_texts : list string)
    (pre post : list image) (page : image) (texts : list string) (msg : string) :
  pdf_page_texts env pdf_bytes = inr page_texts ->
  len (strip (join_page_texts page_texts)) <= 50 ->
  convert_from_path env pdf_bytes 300 = inr (pre ++ page :: post) ->
  map (image_to_string env) pre = map inr texts ->
  image_to_string env page = inl msg ->
  _extract_text_from_pdf env pdf_bytes
  = (inl (External msg),
     EvPdfReader :: EvConvertFromPath 300
       :: map EvImageToString pre ++ [EvImageToString page]).
Proof.
  intros Hpdf Hlen Hconv Hpre Hpage.
  rewrite (pdf_after_reader env _ _ Hpdf).
  destruct (Z.ltb_spec 50 (len (strip (join_page_texts page_texts)))); [lia|].
  cbv zeta. rewrite Hconv. unfold bind, call. cbn [fst snd].
  now rewrite (ocr_pages_fails_at pre EmptyString texts page post msg Hpre Hpage).
Qed.

(** *** Which libraries a file reaches *)

Lemma no_event_of_kind_ocr_pages (k : event image -> bool) images acc :
  (forall p, k (EvImageToString p) = false) ->
  existsb k (snd (ocr_pages env images acc)) = false.
Proof.
  intros Hk. revert acc. induction images as [|page rest IH]; intros acc; simpl;
    [reflexivity|].
  rewrite snd_bind, existsb_app. simpl. rewrite Hk.
  destruct (image_to_string env page); simpl; [reflexivity|apply IH].
Qed.

Lemma no_event_of_kind_pdf (k : event image -> bool) pdf_bytes :
  k EvPdfReader = false -> (forall d, k (EvConvertFromPath d) = false) ->
  (forall p, k (EvImageToString p) = false) ->
  existsb k (snd (_extract_text_from_pdf env pdf_bytes)) = false.
Proof.
  intros K1 K2 K3. unfold _extract_text_from_pdf.
  rewrite snd_bind, existsb_app. simpl. rewrite K1.
  destruct (pdf_page_texts env pdf_bytes) as [msg|page_texts]; simpl;
    [reflexivity|].
  destruct (_ && _); [reflexivity|].
  rewrite snd_bind, existsb_app. simpl. rewrite K2.
  destruct (convert_from_path env pdf_bytes 300); simpl; [reflexivity|].
  now apply no_event_of_kind_ocr_pages.
Qed.

Lemma no_event_of_kind_image (k : event image -> bool) image_bytes :
  k EvImageOpen = false -> (forall p, k (EvImageToString p) = false) ->
  existsb k (snd (_extract_text_from_image env image_bytes)) = false.
Proof.
  intros K1 K2. unfold _extract_text_from_image.
  rewrite snd_bind, existsb_app. simpl. rewrite K1.
  destruct (image_open env image_bytes) as [msg|img]; simpl; [reflexivity|].
  now rewrite K2.
Qed.

Lemma no_event_of_kind_file (k : event image -> bool) file_bytes file_path :
  k EvPdfReader = false -> (forall d, k (EvConvertFromPath d) = false) ->
  k EvImageOpen = false -> (forall p, k (EvImageToString p) = false) ->
  existsb k (snd (_extract_text_from_file env file_bytes file_path)) = false.
Proof.
  intros K1 K2 K3 K4. unfold _extract_text_from_file.
  destruct (String.eqb _ ".pdf"); [now apply no_event_of_kind_pdf|].
  destruct (existsb _ image_extensions); [now apply no_event_of_kind_image|].
  reflexivity.
Qed.

(** X20.  An image file never reaches PyPDF2 or pdf2image and a PDF never
    reaches [Image.open]: for an image extension text extraction opens
    the image and reads it with Tesseract once, and nothing else; for
    [.pdf] it only reads the text layer, rasterises and reads pages. *)
Theorem image_and_pdf_paths_do_not_cross
    (file_bytes : list byte) (file_path : string) :
  (In (file_extension_of env file_path) image_extensions ->
   existsb is_pdf_call (snd (_extract_text_from_file env file_bytes file_path)) = false
   /\ snd (_extract_text_from_file env file_bytes file_path)
      = match image_open env file_bytes with
        | inl _ => [EvImageOpen]
        | inr img => [EvImageOpen; EvImageToString img]
        end)
  /\ (file_extension_of env file_path = ".pdf" ->
      existsb (fun ev => match ev with EvImageOpen => true | _ => false end)
              (snd (_extract_text_from_file env file_bytes file_path)) = false).
Proof.
  split.
  - intros Hin.
    assert (Hne : String.eqb (file_extension_of env file_path) ".pdf" = false).
    { apply String.eqb_neq. intros E. rewrite E in Hin.
      simpl in Hin. intuition discriminate. }
    assert (Hex : existsb (String.eqb (file_extension_of env file_path))
                          image_extensions = true).
    { apply existsb_exists. exists (file_extension_of env file_path).
      split; [assumption|apply String.eqb_refl]. }
    unfold _extract_text_from_file. rewrite Hne, Hex.
    split; [now apply no_event_of_kind_image|].
    unfold _extract_text_from_image. rewrite snd_bind. simpl.
    now destruct (image_open env file_bytes).
  - intros E. unfold _extract_text_from_file. rewrite E. simpl String.eqb. cbv iota.
    now apply no_event_of_kind_pdf.
Qed.

(** *** Failures before extraction *)

Lemma failure_handler (invoice_id now : string) (e : error) :
  update_invoice env invoice_id (failure_update now e) = inr tt ->
  bind (call (EvUpdateInvoice (image := image) invoice_id (failure_update now e))
             (update_invoice env invoice_id (failure_update now e)))
       (fun _ => ret (VDict [ ("success", VBool false);
                              ("invoice_id", VStr invoice_id);
                              ("error", VStr (error_str e)) ]))
  = (inr (failure_result invoice_id e),
     [EvUpdateInvoice invoice_id (failure_update now e)]).
Proof. intros H. unfold bind, call. rewrite H. reflexivity. Qed.

Lemma bind_call_ok {A B : Type} (ev : event image) (r : string + A) (a : A)
    (k : A -> M image B) :
  r = inr a -> bind (call ev r) k = (fst (k a), ev :: snd (k a)).
Proof. intros ->. reflexivity. Qed.

Lemma bind_call_err {A B : Type} (ev : event image) (r : string + A) (msg : string)
    (k : A -> M image B) :
  r = inl msg -> bind (call ev r) k = (inl (External msg), [ev]).
Proof. intros ->. reflexivity. Qed.

Lemma caught (invoice_id now : string) (e : error) (t : list (event image))
    (m : M image value) :
  (forall data, update_invoice env invoice_id data = inr tt) ->
  m = (inl e, t) ->
  try_except m
    (fun e =>
       bind (call (EvUpdateInvoice invoice_id (failure_update now e))
                  (update_invoice env invoice_id (failure_update now e)))
            (fun _ => ret (VDict [ ("success", VBool false);
                                   ("invoice_id", VStr invoice_id);
                                   ("error", VStr (error_str e)) ])))
  = (inr (failure_result invoice_id e),
     t ++ [EvUpdateInvoice invoice_id (failure_update now e)]).
Proof.
  intros Hupd ->. unfold try_except. cbn [fst snd].
  now rewrite (failure_handler _ _ _ (Hupd _)).
Qed.

Ltac caught_with e t H :=
  refine (eq_trans (caught _ _ e t _ H _) _); reflexivity.

(** X14.  When the invoice row is missing, when the query raises, when
    the row has no usable [file_path] (absent, [None] or empty) or when
    the bucket answers with nothing, [process_invoice] extracts nothing:
    it writes status "failed" with the message to the row and returns the
    failure record with the same message. *)
Theorem process_invoice_fails_before_extraction
    (self : InvoiceProcessor) (invoice_id user_id now : string) :
  (forall data, update_invoice env invoice_id data = inr tt) ->
  (select_invoice env invoice_id = inr [] ->
   process_invoice env self invoice_id user_id now
   = (inr (failure_result invoice_id (InvoiceNotFound invoice_id)),
      [ EvSelectInvoice invoice_id;
        EvUpdateInvoice invoice_id
          (failure_update now (InvoiceNotFound invoice_id)) ]))
  /\ (forall msg,
        select_invoice env invoice_id = inl msg ->
        process_invoice env self invoice_id user_id now
        = (inr (failure_result invoice_id (External msg)),
           [ EvSelectInvoice invoice_id;
             EvUpdateInvoice invoice_id (failure_update now (External msg)) ]))
  /\ (forall invoice rows,
        select_invoice env invoice_id = inr (invoice :: rows) ->
        truthy (dict_get invoice "file_path") = false ->
        process_invoice env self invoice_id user_id now
        = (inr (failure_result invoice_id (NoFilePath invoice_id)),
           [ EvSelectInvoice invoice_id;
             EvUpdateInvoice invoice_id
               (failure_update now (NoFilePath invoice_id)) ]))
  /\ (forall invoice rows file_path,
        select_invoice env invoice_id = inr (invoice :: rows) ->
        dict_get invoice "file_path" = VStr file_path ->
        file_path <> EmptyString ->
        storage_download env (lstrip_char "/"%char file_path) = inr [] ->
        process_invoice env self invoice_id user_id now
        = (inr (failure_result invoice_id (DownloadFailed file_path)),
           [ EvSelectInvoice invoice_id;
             EvDownload (lstrip_char "/"%char file_path);
             EvUpdateInvoice invoice_id
               (failure_update now (DownloadFailed file_path)) ])).
Proof.
  intros Hupd. unfold process_invoice. repeat split.
  - intros H. rewrite (bind_call_ok _ _ _ _ H).
    caught_with (InvoiceNotFound invoice_id) [EvSelectInvoice (image := image) invoice_id]
                Hupd.
  - intros msg H. rewrite (bind_call_err _ _ _ _ H).
    caught_with (External msg) [EvSelectInvoice (image := image) invoice_id] Hupd.
  - intros invoice rows H Hfalsy. rewrite (bind_call_ok _ _ _ _ H).
    destruct (dict_get invoice "file_path") as [|b|z|f|s|l|d'];
      cbn [truthy] in Hfalsy; cbv zeta; cbn [truthy]; try rewrite Hfalsy;
      try (apply negb_false_iff in Hfalsy; rewrite Hfalsy);
      caught_with (NoFilePath invoice_id) [EvSelectInvoice (image := image) invoice_id]
                  Hupd.
  - intros invoice rows file_path H Hpath Hne Hdl.
    rewrite (bind_call_ok _ _ _ _ H), Hpath.
    destruct (String.eqb_spec file_path EmptyString); [contradiction|].
    unfold _download_file_from_storage.
    rewrite (bind_call_ok _ _ _ _ Hdl).
    caught_with (DownloadFailed file_path)
                [EvSelectInvoice (image := image) invoice_id;
                 EvDownload (lstrip_char "/"%char file_path)] Hupd.
Qed.

(** *** Every run ends in one write of the row *)

Lemma no_event_of_kind_structuring (k : event image -> bool) self text :
  (forall p, k (EvGenerateContent p) = false) ->
  (forall t, k (EvRegex t) = false) ->
  existsb k (snd (_extract_invoice_data env self text)) = false.
Proof.
  intros K1 K2. unfold _extract_invoice_data.
  destruct (regex_never_fails (image := image) text) as [d0 Hd].
  destruct (gemini_enabled self);
    [|rewrite Hd; cbn [snd existsb]; now rewrite K2].
  unfold _extract_with_gemini. rewrite snd_try_except, snd_bind, !existsb_app.
  cbn [call fst snd existsb]. rewrite K1.
  destruct (generate_content env (build_prompt text)) as [msg|response];
    cbn [fst snd bind call lib existsb ret app]; rewrite ?Hd;
    cbn [snd existsb]; [now rewrite K2|].
  destruct (json_loads env (strip_code_fence (strip response)));
    cbn [fst snd bind lib ret existsb app orb]; rewrite ?K2; reflexivity.
Qed.

Lemma settled_after (invoice_id : string) (ev : event image) (m : M image value) :
  is_update ev = false -> settled invoice_id m ->
  settled invoice_id (fst m, ev :: snd m).
Proof.
  intros Hev [(d & data & t & -> & Ht & H1 & H2 & H3)|(e & t & -> & Ht)].
  - left. exists d, data, (ev :: t). cbn [fst snd existsb app].
    rewrite Hev, Ht. auto.
  - right. exists e, (ev :: t). cbn [fst snd existsb]. rewrite Hev, Ht. auto.
Qed.

Lemma settled_after_events (invoice_id : string) (t0 : list (event image))
    (m : M image value) :
  existsb is_update t0 = false -> settled invoice_id m ->
  settled invoice_id (fst m, t0 ++ snd m).
Proof.
  induction t0 as [|ev t0 IH]; intros H0 Hm.
  - now destruct m.
  - cbn [existsb] in H0. apply orb_false_iff in H0. destruct H0 as [Hev H0].
    exact (settled_after _ ev (fst m, t0 ++ snd m) Hev (IH H0 Hm)).
Qed.

Lemma settled_raise (invoice_id : string) (e : error) :
  settled (image := image) invoice_id (raise e).
Proof. right. exists e, []. auto. Qed.

Lemma settled_extract_and_store self invoice_id now file_bytes file_path :
  (forall data, update_invoice env invoice_id data = inr tt) ->
  settled invoice_id (extract_and_store env self invoice_id now file_bytes file_path).
Proof.
  intros Hupd.
  pose proof (no_event_of_kind_file is_update file_bytes file_path
                eq_refl (fun _ => eq_refl) eq_refl (fun _ => eq_refl)) as N1.
  destruct (_extract_text_from_file env file_bytes file_path) as [[e|text] t1] eqn:F;
    cbn [snd] in N1.
  - right. exists e, t1. split; [|assumption].
    unfold extract_and_store. now rewrite (bind_err _ _ _ _ F).
  - rewrite (extract_and_store_after_text env _ _ _ _ _ _ _ F).
    destruct (len (strip text) <? 10); [right; now exists NoMeaningfulText, t1|].
    cbv zeta. apply settled_after_events; [assumption|].
    pose proof (no_event_of_kind_structuring is_update self text
                  (fun _ => eq_refl) (fun _ => eq_refl)) as N2.
    destruct (_extract_invoice_data env self text) as [[e|sd] t2];
      cbn [snd] in N2.
    + right. exists e, t2. split; [|assumption]. now rewrite (bind_err _ _ e t2 eq_refl).
    + rewrite (bind_ok _ _ sd t2 eq_refl).
      apply settled_after_events; [assumption|].
      destruct sd as [|b|z|f|s|l|d]; try apply settled_raise.
      left. exists [ ("success", VBool true); ("invoice_id", VStr invoice_id);
                     ("extracted_data", VDict d); ("text_length", VInt (len text)) ],
                   (build_update_data d now), [].
      split; [unfold bind, call; now rewrite Hupd|].
      repeat split.
Qed.

(** X13.  When the database takes every write, [process_invoice] never
    raises and every run ends in exactly one write of the invoice row, its
    last event: status "completed" when the record returned says success,
    status "failed" with the error message when it says failure, and the
    record always names the invoice. *)
Theorem process_invoice_reports_once
    (self : InvoiceProcessor) (invoice_id user_id now : string) :
  (forall data, update_invoice env invoice_id data = inr tt) ->
  exists d data t,
    process_invoice env self invoice_id user_id now
    = (inr (VDict d), t ++ [EvUpdateInvoice invoice_id data])
    /\ existsb is_update t = false
    /\ dict_get d "invoice_id" = VStr invoice_id
    /\ ((dict_get d "success" = VBool true
         /\ dict_lookup data "status" = Some (VStr "completed"))
        \/ (exists e, VDict d = failure_result invoice_id e
                      /\ data = failure_update now e)).
Proof.
  intros Hupd. unfold process_invoice.
  match goal with
  | |- context [try_except ?m _] =>
    assert (Hm : settled invoice_id m); [|destruct Hm as
      [(d & data & t & -> & Ht & H1 & H2 & H3)|(e & t & -> & Ht)]]
  end.
  - destruct (select_invoice env invoice_id) as [msg|[|invoice rows]] eqn:Hsel.
    + right. exists (External msg), [EvSelectInvoice invoice_id]. auto.
    + apply (settled_after invoice_id (EvSelectInvoice invoice_id) (raise _) eq_refl).
      apply settled_raise.
    + rewrite (bind_call_ok _ _ _ _ eq_refl).
      apply (settled_after invoice_id (EvSelectInvoice invoice_id) _ eq_refl).
      destruct (dict_get invoice "file_path") as [|b|z|f|file_path|l|d'];
        try (cbv zeta; destruct (truthy _); apply settled_raise).
      destruct (String.eqb file_path EmptyString); [apply settled_raise|].
      unfold _download_file_from_storage.
      destruct (storage_download env (lstrip_char "/"%char file_path))
        as [msg|[|b0 bs]] eqn:Hdl.
      * right. exists (External msg), [EvDownload (lstrip_char "/"%char file_path)].
        auto.
      * right. exists (DownloadFailed file_path),
                 [EvDownload (lstrip_char "/"%char file_path)]. auto.
      * unfold bind at 2. cbn [call fst snd ret app]. unfold bind at 1.
        cbn [fst snd].
        apply (settled_after invoice_id (EvDownload (lstrip_char "/"%char file_path))
                 _ eq_refl).
        now apply settled_extract_and_store.
  - exists d, data, t. unfold try_except. cbn [fst]. repeat split; auto.
  - exists [ ("success", VBool false); ("invoice_id", VStr invoice_id);
             ("error", VStr (error_str e)) ],
           (failure_update now e), t.
    rewrite (caught _ _ e t _ Hupd eq_refl).
    repeat split; try assumption. right. exists e. auto.
Qed.

(** *** The generative model is asked at most once *)

Lemma filter_quiet (t : list (event image)) :
  existsb is_generate t = false -> filter is_generate t = [].
Proof.
  induction t as [|ev t IH]; [reflexivity|]. cbn [existsb filter].
  intros H. apply orb_false_iff in H. destruct H as [-> H]. auto.
Qed.

Lemma quiet_bound {A : Type} (n : nat) (m : M image A) :
  existsb is_generate (snd m) = false -> generates_at_most n m.
Proof.
  intros H. unfold generates_at_most. rewrite (filter_quiet _ H). apply Nat.le_0_l.
Qed.

Lemma bound_after_quiet {A B : Type} (n : nat) (m : M image A) (f : A -> M image B) :
  existsb is_generate (snd m) = false ->
  (forall x, generates_at_most n (f x)) ->
  generates_at_most n (bind m f).
Proof.
  unfold generates_at_most. intros H Hf.
  rewrite snd_bind, filter_app, (filter_quiet _ H).
  destruct (fst m) as [e|x]; [apply Nat.le_0_l|apply Hf].
Qed.

Lemma bound_then_quiet {A B : Type} (n : nat) (m : M image A) (f : A -> M image B) :
  generates_at_most n m ->
  (forall x, existsb is_generate (snd (f x)) = false) ->
  generates_at_most n (bind m f).
Proof.
  unfold generates_at_most. intros H Hf.
  rewrite snd_bind, filter_app, length_app.
  destruct (fst m) as [e|x]; [|rewrite (filter_quiet _ (Hf x))];
    cbn [filter List.length]; now rewrite Nat.add_0_r.
Qed.

Lemma bound_try_quiet {A : Type} (n : nat) (m : M image A) (h : error -> M image A) :
  generates_at_most n m ->
  (forall e, existsb is_generate (snd (h e)) = false) ->
  generates_at_most n (try_except m h).
Proof.
  unfold generates_at_most. intros H Hh.
  rewrite snd_try_except, filter_app, length_app.
  destruct (fst m) as [e|x]; [rewrite (filter_quiet _ (Hh e))|];
    cbn [filter List.length]; now rewrite Nat.add_0_r.
Qed.

Lemma structuring_generates_once self text :
  generates_at_most 1 (_extract_invoice_data env self text)
  /\ (gemini_enabled self = false ->
      generates_at_most 0 (_extract_invoice_data env self text)).
Proof.
  unfold generates_at_most, _extract_invoice_data.
  destruct (regex_never_fails (image := image) text) as [d0 Hd].
  destruct (gemini_enabled self).
  - split; [|discriminate]. unfold _extract_with_gemini.
    rewrite snd_try_except, snd_bind. cbn [call fst snd].
    destruct (generate_content env (build_prompt text)) as [msg|response];
      cbn [fst snd bind call lib ret app]; rewrite ?Hd;
      [cbn; apply Nat.le_refl|].
    destruct (json_loads env (strip_code_fence (strip response)));
      cbn [fst snd bind lib ret app]; cbn; apply Nat.le_refl.
  - rewrite Hd. cbn. split; auto.
Qed.

Lemma pipeline_generates_as_structuring (n : nat)
    (self : InvoiceProcessor) (invoice_id user_id now : string) :
  (forall text, generates_at_most n (_extract_invoice_data env self text)) ->
  generates_at_most n (process_invoice env self invoice_id user_id now).
Proof.
  intros Hn. unfold process_invoice.
  apply bound_try_quiet; [|intros e; rewrite snd_bind; cbn [call fst snd];
                           now destruct (update_invoice _ _ _)].
  apply bound_after_quiet; [reflexivity|]. intros [|invoice rows];
    [now apply quiet_bound|].
  destruct (dict_get invoice "file_path") as [|b|z|f|file_path|l|d'];
    try (destruct (truthy _); now apply quiet_bound).
  destruct (String.eqb file_path EmptyString); [now apply quiet_bound|].
  apply bound_after_quiet.
  { unfold _download_file_from_storage. rewrite snd_bind. cbn [call fst snd].
    destruct (storage_download _ _) as [msg|[|b0 bs]]; reflexivity. }
  intros file_bytes. unfold extract_and_store.
  apply bound_after_quiet.
  { now apply no_event_of_kind_file. }
  intros text. destruct (_ || _); [now apply quiet_bound|].
  apply bound_then_quiet; [apply Hn|].
  intros [|b|z|f|s|l|d]; try reflexivity.
  rewrite snd_bind. cbn [call fst snd]. now destruct (update_invoice _ _ _).
Qed.

(** X17.  Whatever the services answer, one run of [process_invoice] asks
    the generative model at most once, and not at all when the processor
    has no model configured ([gemini_enabled] false). *)
Theorem generative_model_is_asked_at_most_once
    (self : InvoiceProcessor) (invoice_id user_id now : string) :
  generates_at_most 1 (process_invoice env self invoice_id user_id now)
  /\ (gemini_enabled self = false ->
      generates_at_most 0 (process_invoice env self invoice_id user_id now)).
Proof.
  split; [|intros Hoff]; apply pipeline_generates_as_structuring; intros text;
    now apply structuring_generates_once.
Qed.

(** X22.  The one exception [process_invoice] lets out is the one raised
    by the write of status "failed" in its [except] block: when the call
    raises, the block had caught some error, the write of that error to
    the row raised, and this write is the last thing the call did. *)
Theorem process_invoice_raises_only_from_the_failure_write
    (self : InvoiceProcessor) (invoice_id user_id now : string) (e : error) :
  fst (process_invoice env self invoice_id user_id now) = inl e ->
  exists caught_error msg t,
    e = External msg
    /\ update_invoice env invoice_id (failure_update now caught_error) = inl msg
    /\ snd (process_invoice env self invoice_id user_id now)
       = t ++ [EvUpdateInvoice invoice_id (failure_update now caught_error)].
Proof.
  unfold process_invoice.
  match goal with |- context [try_except ?m _] => destruct m as [[e0|v] t] end;
    unfold try_except; cbn [fst snd]; [|discriminate].
  unfold bind, call. cbn [fst snd].
  destruct (update_invoice env invoice_id (failure_update now e0)) as [msg|[]] eqn:U;
    [|discriminate].
  intros H. injection H as <-. exists e0, msg, t. auto.
Qed.

End MoreStages.

Lemma ocr_failure_witness :
  _extract_text_from_pdf
    (mkCollaborators string
       (fun _ => inr []) (fun _ => inr []) (fun _ _ => inr tt) (fun _ => ".pdf")
       (fun _ => inr []) (fun _ _ => inr ["page one"; "smudge"; "page three"])
       (fun _ => inl "not an image")
       (fun page => if String.eqb page "smudge" then inl "TesseractError" else inr page)
       (fun _ => inl "no model") (fun _ => inl "no parser"))
    [x25; x50]
  = (inl (External "TesseractError"),
     EvPdfReader :: EvConvertFromPath 300
       :: map EvImageToString ["page one"] ++ [EvImageToString "smudge"]).
Proof.
  apply (ocr_failure_on_a_page_aborts _ [x25; x50] [] ["page one"] ["page three"]
           "smudge" ["page one"] "TesseractError").
  - reflexivity.
  - vm_compute. discriminate.
  - reflexivity.
  - reflexivity.
  - reflexivity.
Defined.

Lemma image_and_pdf_paths_witness :
  existsb is_pdf_call
    (snd (_extract_text_from_file (document ".png" [] [scenario_text]) [x25]
                                  "/user-1/scan.png")) = false
  /\ snd (_extract_text_from_file (document ".png" [] [scenario_text]) [x25]
                                  "/user-1/scan.png")
     = match image_open (document ".png" [] [scenario_text]) [x25] with
       | inl _ => [EvImageOpen]
       | inr img => [EvImageOpen; EvImageToString img]
       end.
Proof.
  apply (proj1 (image_and_pdf_paths_do_not_cross
                  (document ".png" [] [scenario_text]) [x25] "/user-1/scan.png")).
  vm_compute. auto.
Defined.

Lemma process_invoice_fails_witness :
  process_invoice empty_database (new_processor EmptyString)
                  "inv-9" "user-1" "2024-05-01T10:00:00"
  = (inr (failure_result "inv-9" (InvoiceNotFound "inv-9")),
     [ EvSelectInvoice "inv-9";
       EvUpdateInvoice "inv-9"
         (failure_update "2024-05-01T10:00:00" (InvoiceNotFound "inv-9")) ]).
Proof.
  apply (proj1 (process_invoice_fails_before_extraction
                  empty_database (new_processor EmptyString)
                  "inv-9" "user-1" "2024-05-01T10:00:00"
                  (fun _ => eq_refl))).
  reflexivity.
Defined.

Lemma process_invoice_reports_witness :
  exists d data t,
    process_invoice (document ".pdf" [scenario_text] []) (new_processor EmptyString)
                    "inv-1" "user-1" "2024-05-01T10:00:00"
    = (inr (VDict d), t ++ [EvUpdateInvoice "inv-1" data])
    /\ existsb is_update t = false
    /\ dict_get d "invoice_id" = VStr "inv-1"
    /\ ((dict_get d "success" = VBool true
         /\ dict_lookup data "status" = Some (VStr "completed"))
        \/ (exists e, VDict d = failure_result "inv-1" e
                      /\ data = failure_update "2024-05-01T10:00:00" e)).
Proof.
  apply (process_invoice_reports_once
           (document ".pdf" [scenario_text] []) (new_processor EmptyString)
           "inv-1" "user-1" "2024-05-01T10:00:00").
  intros data. reflexivity.
Defined.

Lemma process_invoice_raises_witness :
  exists caught_error msg t,
    External "connection lost" = External msg
    /\ update_invoice read_only_database "inv-9"
         (failure_update "2024-05-01T10:00:00" caught_error) = inl msg
    /\ snd (process_invoice read_only_database (new_processor EmptyString)
                            "inv-9" "user-1" "2024-05-01T10:00:00")
       = t ++ [EvUpdateInvoice "inv-9"
                 (failure_update "2024-05-01T10:00:00" caught_error)].
Proof.
  apply (process_invoice_raises_only_from_the_failure_write
           read_only_database (new_processor EmptyString)
           "inv-9" "user-1" "2024-05-01T10:00:00" (External "connection lost")).
  reflexivity.
Defined.

End InvoiceProcessorMoreProofs.

(** ** The patterns of the regex fallback that never decide a field *)

Module RegexFallbackProofs.
Import Text InvoiceProcessorModel InvoiceProcessorMore.

Lemma match_here_rep set lo hi p s cap :
  match_here (Rep set lo hi :: p) s cap = rep_from (match_here p) set lo hi 0 s cap.
Proof. reflexivity. Qed.

Lemma match_here_open p s cap :
  match_here (Open :: p) s cap = match_here p s (Opened []).
Proof. reflexivity. Qed.

(** An element that takes exactly one character. *)
Lemma match_here_one set p c s cap :
  match_here (Rep set 1 (Some 1%nat) :: p) (c :: s) cap
  = if set_matches set c then match_here p s (push cap c) else None.
Proof.
  rewrite match_here_rep. cbn [rep_from Nat.leb below Nat.ltb andb].
  destruct (set_matches set c); [|reflexivity].
  destruct s as [|c' s]; cbn [rep_from Nat.leb below Nat.ltb andb];
    now destruct (match_here p _ _).
Qed.

Lemma match_here_one_inv set p s cap g :
  match_here (Rep set 1 (Some 1%nat) :: p) s cap = Some g ->
  exists c s', s = c :: s' /\ set_matches set c = true
               /\ match_here p s' (push cap c) = Some g.
Proof.
  destruct s as [|c s]; [discriminate|]. rewrite match_here_one.
  destruct (set_matches set c) eqn:E; [|discriminate]. intros H.
  now exists c, s.
Qed.

(** What a repetition has taken when the match succeeds, outside the
    group. *)
Lemma rep_from_sound k set lo hi s : forall n g,
  rep_from k set lo hi n s NotOpened = Some g ->
  exists pre s', s = pre ++ s' /\ forallb (set_matches set) pre = true
                 /\ k s' NotOpened = Some g.
Proof.
  induction s as [|c s IH]; intros n g; cbn [rep_from push].
  - destruct (Nat.leb lo n); [|discriminate]. intros H. now exists [], [].
  - assert (Hstop : (if Nat.leb lo n then k (c :: s) NotOpened else None) = Some g ->
                    exists pre s', c :: s = pre ++ s'
                                   /\ forallb (set_matches set) pre = true
                                   /\ k s' NotOpened = Some g).
    { destruct (Nat.leb lo n); [|discriminate]. intros H. now exists [], (c :: s). }
    destruct (below n hi && set_matches set c) eqn:E; [|exact Hstop].
    destruct (rep_from k set lo hi (S n) s NotOpened) as [g'|] eqn:R; [|exact Hstop].
    intros H. injection H as <-.
    destruct (IH _ _ R) as (pre & s' & -> & Hpre & Hk).
    exists (c :: pre), s'. cbn [forallb app].
    apply andb_true_iff in E. destruct E as [_ ->]. auto.
Qed.

(** A repetition succeeds when it can take [pre] and what follows it
    succeeds on the rest. *)
Lemma rep_from_complete k set lo hi pre s' :
  forallb (set_matches set) pre = true ->
  (forall cap, k s' cap <> None) ->
  forall n cap,
    (lo <= n + List.length pre)%nat ->
    (forall i, (i < List.length pre)%nat -> below (n + i) hi = true) ->
    rep_from k set lo hi n (pre ++ s') cap <> None.
Proof.
  intros Hpre Hk. induction pre as [|c pre IH]; intros n cap Hlo Hhi.
  - cbn [app List.length] in *. rewrite Nat.add_0_r in Hlo.
    apply Nat.leb_le in Hlo.
    destruct s' as [|c s']; cbn [rep_from]; rewrite Hlo; [apply Hk|].
    destruct (below n hi && set_matches set c); [|apply Hk].
    destruct (rep_from k set lo hi (S n) s' (push cap c)); [discriminate|apply Hk].
  - cbn [forallb] in Hpre. apply andb_true_iff in Hpre. destruct Hpre as [Hc Hpre].
    cbn [app rep_from]. rewrite Hc.
    assert (H0 : below (n + 0) hi = true)
      by (apply Hhi; cbn [List.length]; apply Nat.lt_0_succ).
    rewrite Nat.add_0_r in H0.
    rewrite H0. cbn [andb].
    specialize (IH Hpre (S n) (push cap c)).
    destruct (rep_from k set lo hi (S n) (pre ++ s') (push cap c));
      [discriminate|].
    exfalso. apply IH; [cbn [List.length] in Hlo; lia| |reflexivity].
    intros i Hi. replace (S n + i)%nat with (n + S i)%nat by lia.
    apply Hhi. cbn [List.length]. lia.
Qed.

Lemma search_from_found p pre s :
  match_here p s NotOpened <> None -> search_from p (pre ++ s) <> None.
Proof.
  intros H. induction pre as [|c pre IH]; cbn [app].
  - destruct s; cbn [search_from]; destruct (match_here p _ NotOpened);
      congruence.
  - cbn [search_from].
    destruct (match_here p (c :: pre ++ s) NotOpened); [discriminate|exact IH].
Qed.

Lemma search_from_place p s g :
  search_from p s = Some g ->
  exists pre s', s = pre ++ s' /\ match_here p s' NotOpened = Some g.
Proof.
  induction s as [|c s IH]; cbn [search_from].
  - destruct (match_here p [] NotOpened) eqn:E; [|discriminate].
    intros H. injection H as <-. now exists [], [].
  - destruct (match_here p (c :: s) NotOpened) eqn:E.
    + intros H. injection H as <-. now exists [], (c :: s).
    + intros H. destruct (IH H) as (pre & s' & -> & Hm). now exists (c :: pre), s'.
Qed.

Lemma re_search_none p text :
  re_search p text = None <-> search_from p (list_ascii_of_string text) = None.
Proof. unfold re_search. now destruct (search_from p _). Qed.

(** A pattern that matches only where [q] matches further on or at the
    same place is never the first of the two to match. *)
Lemma shadowed p q :
  (forall s g, match_here p s NotOpened = Some g ->
               exists pre s', s = pre ++ s' /\ match_here q s' NotOpened <> None) ->
  forall text, re_search q text = None -> re_search p text = None.
Proof.
  intros Hpq text Hq. apply re_search_none. apply re_search_none in Hq.
  destruct (search_from p _) as [g|] eqn:E; [exfalso|reflexivity].
  destruct (search_from_place _ _ _ E) as (pre & s' & Hs & Hm).
  destruct (Hpq _ _ Hm) as (pre' & s'' & -> & Hm').
  rewrite Hs, app_assoc in Hq. exact (search_from_found _ _ _ Hm' Hq).
Qed.

Ltac take_one H c s M :=
  apply match_here_one_inv in H; destruct H as (c & s & -> & M & H);
  cbn [push] in H.

Lemma grand_total_is_shadowed text :
  re_search (nth 0 amount_patterns []) text = None ->
  re_search (nth 2 amount_patterns []) text = None.
Proof.
  apply shadowed. intros s g H.
  cbn [nth amount_patterns lit map list_ascii_of_string app] in *.
  take_one H c1 s1 M1. take_one H c2 s2 M2. take_one H c3 s3 M3.
  take_one H c4 s4 M4. take_one H c5 s5 M5.
  unfold star in H at 1. rewrite match_here_rep in H.
  apply rep_from_sound in H. destruct H as (pre & s' & -> & _ & H).
  exists ([c1; c2; c3; c4; c5] ++ pre), s'. split; [reflexivity|].
  rewrite H. discriminate.
Qed.

Lemma invoice_date_is_shadowed text :
  re_search (nth 0 date_patterns []) text = None ->
  re_search (nth 1 date_patterns []) text = None.
Proof.
  apply shadowed. intros s g H.
  cbn [nth date_patterns lit map list_ascii_of_string app] in *.
  take_one H c1 s1 M1. take_one H c2 s2 M2. take_one H c3 s3 M3.
  take_one H c4 s4 M4. take_one H c5 s5 M5. take_one H c6 s6 M6.
  take_one H c7 s7 M7.
  unfold star in H at 1. rewrite match_here_rep in H.
  apply rep_from_sound in H. destruct H as (pre & s' & -> & _ & H).
  exists ([c1; c2; c3; c4; c5; c6; c7] ++ pre), s'. split; [reflexivity|].
  rewrite H. discriminate.
Qed.

Lemma letter_n_in_class c :
  set_matches [Lit "N"] c = true ->
  set_matches [Range "A" "Z"; Range "0" "9"; Lit "-"] c = true.
Proof.
  destruct c as [[] [] [] [] [] [] [] []]; vm_compute; intros H;
    try discriminate H; reflexivity.
Qed.

Lemma invoice_number_is_shadowed text :
  re_search (nth 0 invoice_patterns []) text = None ->
  re_search (nth 1 invoice_patterns []) text = None.
Proof.
  apply shadowed. intros s g H.
  cbn [nth invoice_patterns lit map list_ascii_of_string app] in *.
  take_one H c1 s1 M1. take_one H c2 s2 M2. take_one H c3 s3 M3.
  take_one H c4 s4 M4. take_one H c5 s5 M5. take_one H c6 s6 M6.
  take_one H c7 s7 M7.
  unfold star in H at 1. rewrite match_here_rep in H.
  apply rep_from_sound in H. destruct H as (pre & s' & -> & Hpre & H).
  take_one H n s9 Mn. clear H.
  exists [], (c1 :: c2 :: c3 :: c4 :: c5 :: c6 :: c7 :: pre ++ n :: s9).
  split; [reflexivity|].
  rewrite !match_here_one, M1, M2, M3, M4, M5, M6, M7. cbn [push].
  unfold star, opt, plus.
  rewrite match_here_rep.
  apply rep_from_complete; [assumption| |cbn; lia|reflexivity].
  intros cap0. rewrite match_here_rep.
  apply (rep_from_complete _ _ _ _ []); [reflexivity| |cbn; lia|cbn; lia].
  intros cap1. rewrite match_here_rep.
  apply (rep_from_complete _ _ _ _ []); [reflexivity| |cbn; lia|cbn; lia].
  intros cap2. rewrite match_here_rep.
  apply (rep_from_complete _ _ _ _ []); [reflexivity| |cbn; lia|cbn; lia].
  intros cap3. rewrite match_here_rep.
  apply (rep_from_complete _ _ _ _ []); [reflexivity| |cbn; lia|cbn; lia].
  intros cap4. rewrite match_here_open, match_here_rep.
  apply (rep_from_complete _ _ _ _ [n]);
    [cbn [forallb]; now rewrite (letter_n_in_class _ Mn)| |cbn; lia|reflexivity].
  intros cap5. now destruct cap5.
Qed.

Ltac first_pattern :=
  match goal with
  | |- match ?a with _ => _ end = _ => destruct a; [reflexivity|]
  end.

(** X18.  In the regex fallback the second invoice-number pattern
    ([Invoice Number]), the second date pattern ([Invoice Date]) and the
    third amount pattern ([Grand Total]) never decide a field: wherever one
    of them matches, the first pattern of its list matches too, so each
    search gives what it gives without that pattern. *)
Theorem shadowed_patterns_never_decide (text : string) :
  first_match invoice_patterns text = first_match (without_second invoice_patterns) text
  /\ first_match date_patterns text = first_match (without_second date_patterns) text
  /\ first_match amount_patterns text = first_match (firstn 2 amount_patterns) text.
Proof.
  pose proof (invoice_number_is_shadowed text) as H1.
  pose proof (invoice_date_is_shadowed text) as H2.
  pose proof (grand_total_is_shadowed text) as H3.
  unfold invoice_patterns, date_patterns, amount_patterns in *.
  cbn [nth without_second firstn first_match] in *.
  split; [|split].
  - first_pattern. now rewrite (H1 eq_refl).
  - first_pattern. now rewrite (H2 eq_refl).
  - first_pattern. rewrite (H3 eq_refl). now destruct (re_search _ text).
Qed.

End RegexFallbackProofs.
